(** * Scheduler-cluster searcher (manager/searcher/searcher.go)

    A shallow embedding of the default searcher of the Dragonfly manager:
    the security-domain filter, the five affinity sub-scores, their
    weighted combination [Evaluate] and the ranking done by
    [FindSchedulerClusters].

    Go values are modelled as follows.
    - [float64] is an IEEE-754 binary64 number ([spec_float] with
      precision 53 and maximal exponent 1024); products and sums are
      rounded one operation at a time, as on amd64, where the compiler
      does not fuse a product with a sum.
    - [string] is a sequence of bytes ([String.string]).
    - [map[string]string] is a [gmap string string]; indexing a missing
      key yields the empty string.
    - slices are lists; [append] adds at the end.
    - the packages the file imports ([strings], [net], [cidranger],
      [mapstructure], [sort]) are interfaces ([Class]es) the development is
      parametric in; one instance of each is given further down and is
      used for the concrete examples. *)

From Stdlib Require Import ZArith String Ascii List Bool Lia Permutation Sorted.
From Stdlib Require Import Floats.SpecFloat.
From stdpp Require Import gmap strings.

Local Open Scope string_scope.
Local Open Scope Z_scope.
Local Open Scope list_scope.

(** ** float64 *)

Module F64.

Definition prec : Z := 53.
Definition emax : Z := 1024.

Definition t := spec_float.

Definition add : t -> t -> t := SFadd prec emax.
Definition mul : t -> t -> t := SFmul prec emax.
Definition div : t -> t -> t := SFdiv prec emax.

(** [a > b], [a <= b] on float64. *)
Definition gtb (a b : t) : bool := SFltb b a.
Definition leb (a b : t) : bool := SFleb a b.

(** [float64(z)] for an integer [z]. *)
Definition of_int (z : Z) : t := binary_normalize prec emax z 0 false.

Definition zero : t := S754_zero false.
Definition one : t := of_int 1.

(** [m * 2^e] is a float64 nearest to the decimal constant [num/den]:
    the distance is at most half a unit in the last place. *)
Definition nearest (x : t) (num den : Z) : bool :=
  match x with
  | S754_finite false m e =>
      valid_binary prec emax x && (e <=? 0) &&
      (2 * Z.abs (Z.pos m * den - num * 2 ^ (- e)) <=? den)
  | _ => false
  end.

(** The values a score can take are zero or positive and finite. *)
Definition nonneg_finite (x : t) : bool :=
  match x with
  | S754_zero _ => true
  | S754_finite false _ _ => true
  | _ => false
  end.

(** [x] is a float64 with [0 <= x <= 1]. *)
Definition in_unit (x : t) : bool :=
  valid_binary prec emax x && leb zero x && leb x one.

End F64.

Abbreviation float64 := F64.t.

(** ** Constants of the package *)

Definition ConditionSecurityDomain : string := "security_domain".
Definition ConditionIDC : string := "idc".
Definition ConditionLocation : string := "location".

(** The weights, as the float64 nearest to each decimal constant. *)
Definition securityDomainAffinityWeight : float64 :=
  S754_finite false 7205759403792794 (-54).   (* 0.4 *)
Definition cidrAffinityWeight : float64 :=
  S754_finite false 5404319552844595 (-54).   (* 0.3 *)
Definition idcAffinityWeight : float64 :=
  S754_finite false 5404319552844595 (-55).   (* 0.15 *)
Definition locationAffinityWeight : float64 :=
  S754_finite false 7205759403792794 (-56).   (* 0.1 *)
Definition clusterTypeWeight : float64 :=
  S754_finite false 7205759403792794 (-57).   (* 0.05 *)

Definition maxScore : float64 := F64.one.
Definition minScore : float64 := F64.zero.

Definition maxElementLen : Z := 5.

(** Modelled from the spec: [types.AffinitySeparator] of package
    [pkg/types], the separator of the alternatives of an idc and of the
    segments of a location, which the spec gives as the bar. *)
Definition AffinitySeparator : ascii := "|"%char.

(** Modelled from the spec: [math.Min] of package [pkg/math], the smaller
    of two integers. *)
Definition Min (a b : Z) : Z := if a <? b then a else b.

(** ** Data model *)

(** Scheduler cluster scopes. *)
Record Scopes := {
  IDC : string;
  Location : string;
  CIDRs : list string
}.

(** Modelled from the spec: the records of package [manager/model], with
    the fields the searcher reads. The active servers of a cluster are its
    [Schedulers]; its raw scopes are untyped JSON data, a map from keys to
    values. *)
Module model.

#[warnings="-register-all"]
Inductive JSONValue :=
| JNull
| JBool (b : bool)
| JNumber (x : float64)
| JString (s : string)
| JArray (xs : list JSONValue)
| JObject (kvs : list (string * JSONValue)).

Abbreviation JSONMap := (gmap string JSONValue).

Record SecurityRule := { Domain : string }.

Record SecurityGroupRecord := { SecurityRules : list SecurityRule }.

Record Scheduler := { HostName : string }.

Record SchedulerCluster := {
  Name : string;
  Scopes : JSONMap;
  IsDefault : bool;
  Schedulers : list Scheduler;
  SecurityGroup : SecurityGroupRecord
}.

End model.

Abbreviation Conditions := (gmap string string).

(** [conditions[key]]: the zero value of [string] when [key] is missing. *)
Definition at_key (conditions : Conditions) (key : string) : string :=
  default "" (conditions !! key).

(** [len(xs)] *)
Definition len {A} (xs : list A) : Z := Z.of_nat (length xs).

(** ** Imported packages *)

(** Package [strings]. [Split] is written out for a separator of one
    byte; [EqualFold] (equality under Unicode simple case folding) is a
    member of the interface. *)
Class Strings := {
  EqualFold : string -> string -> bool
}.

Fixpoint split_at (sep : ascii) (s : string) : string * option string :=
  match s with
  | EmptyString => (EmptyString, None)
  | String c rest =>
      if Ascii.eqb c sep then (EmptyString, Some rest)
      else let '(hd, tl) := split_at sep rest in (String c hd, tl)
  end.

Fixpoint split_fuel (fuel : nat) (sep : ascii) (s : string) : list string :=
  match fuel with
  | O => [s]
  | S fuel' =>
      match split_at sep s with
      | (hd, None) => [hd]
      | (hd, Some rest) => hd :: split_fuel fuel' sep rest
      end
  end.

(** [strings.Split(s, sep)] for a one-byte [sep]: a string holds at most
    [length s] separators. *)
Definition Split (s : string) (sep : ascii) : list string :=
  split_fuel (String.length s) sep s.

(** The segments of a string, put together again. *)
Fixpoint join (sep : ascii) (segments : list string) : string :=
  match segments with
  | [] => ""
  | [s] => s
  | s :: rest => String.append s (String sep (join sep rest))
  end.

(** Package [mapstructure]: [Decode(input, &scopes)], [None] when it
    returns an error. *)
Class Mapstructure := {
  Decode : model.JSONMap -> option Scopes
}.

(** Packages [net] and [cidranger]. [ParseIP] returns [None] for Go's nil
    address, [ParseCIDR] returns [None] for an error. The ranger made by
    [NewPCTrieRanger] is modelled by the list of the networks it holds:
    [Insert] either adds the network or returns an error and leaves the
    ranger as it was, [Contains] returns an error for the nil address and
    otherwise tells whether one of the networks held contains the
    address. *)
Class Net := {
  IP : Type;
  IPNet : Type;
  ParseIP : string -> option IP;
  ParseCIDR : string -> option IPNet;
  NetContains : IPNet -> IP -> bool;
  insertFails : list IPNet -> IPNet -> bool
}.

Section Ranger.
Context {net : Net}.

Definition Ranger := list IPNet.

Definition NewPCTrieRanger : Ranger := [].

(** The new state of the ranger and whether an error is returned. *)
Definition Insert (ranger : Ranger) (network : IPNet) : Ranger * bool :=
  if insertFails ranger network then (ranger, true)
  else (ranger ++ [network], false).

(** [None] is the error. *)
Definition Contains (ranger : Ranger) (ip : option IP) : option bool :=
  match ip with
  | None => None
  | Some addr => Some (existsb (fun network => NetContains network addr) ranger)
  end.
End Ranger.

(** Package [sort]: [sort.Slice(x, less)]. The comparator of the source
    reads the two elements at the indices it is given, so it is modelled
    as a function of the elements. *)
Class Sort := {
  sortSlice : forall A : Type, (A -> A -> bool) -> list A -> list A
}.
Arguments sortSlice {_ _} _ _.

(** ** The searcher *)

(** The two errors [FindSchedulerClusters] returns: the one made by
    [errors.New("empty scheduler clusters")] and the one made by
    [fmt.Errorf("conditions %#v does not match any scheduler cluster",
    conditions)], whose text holds the conditions. *)
Inductive error :=
| ErrEmptySchedulerClusters
| ErrNoMatch (conditions : Conditions).

(** The pair [(clusters, nil)] or [(nil, err)]. *)
Inductive result :=
| Ok (clusters : list model.SchedulerCluster)
| Err (err : error).

Section Searcher.
Context {str : Strings} {dec : Mapstructure} {net : Net} {srt : Sort}.

(** calculateSecurityDomainAffinityScore 0.0~1.0 larger and better. *)
Definition calculateSecurityDomainAffinityScore
  (securityDomain : string) (securityRules : list model.SecurityRule) : float64 :=
  if String.eqb securityDomain "" then minScore
  else if len securityRules =? 0 then minScore
  else maxScore.

(** The body of the loop over [cidrs]: an entry that does not parse is
    skipped, and an error of [Insert] is logged and nothing more. *)
Definition insertCIDR (ranger : Ranger) (cidr : string) : Ranger :=
  match ParseCIDR cidr with
  | None => ranger
  | Some network => let '(ranger', err) := Insert ranger network in ranger'
  end.

(** Construct CIDR ranger. *)
Definition constructRanger (cidrs : list string) : Ranger :=
  fold_left insertCIDR cidrs NewPCTrieRanger.

(** calculateCIDRAffinityScore 0.0~1.0 larger and better. *)
Definition calculateCIDRAffinityScore (ip : string) (cidrs : list string) : float64 :=
  let ranger := constructRanger cidrs in
  match Contains ranger (ParseIP ip) with
  | None => minScore
  | Some contains => if negb contains then minScore else maxScore
  end.

(** calculateIDCAffinityScore 0.0~1.0 larger and better. *)
Definition calculateIDCAffinityScore (dst src : string) : float64 :=
  if String.eqb dst "" || String.eqb src "" then minScore
  else if EqualFold dst src then maxScore
  else
    let srcElements := Split src AffinitySeparator in
    if existsb (fun srcElement => EqualFold dst srcElement) srcElements
    then maxScore
    else minScore.

(** [xs[i]]; the loop below only reads below both lengths. *)
Definition at_index (xs : list string) (i : Z) : string :=
  nth (Z.to_nat i) xs "".

(** The loop [for i := 0; i < elementLen; i++] of
    [calculateMultiElementAffinityScore], from the state [(i, score)];
    [fuel] bounds the iterations left. *)
Fixpoint countMatches (fuel : nat) (elementLen : Z)
  (dstElements srcElements : list string) (i score : Z) : Z :=
  match fuel with
  | O => score
  | S fuel' =>
      if i <? elementLen then
        if negb (EqualFold (at_index dstElements i) (at_index srcElements i))
        then score
        else countMatches fuel' elementLen dstElements srcElements (i + 1) (score + 1)
      else score
  end.

(** calculateMultiElementAffinityScore 0.0~1.0 larger and better. *)
Definition calculateMultiElementAffinityScore (dst src : string) : float64 :=
  if String.eqb dst "" || String.eqb src "" then minScore
  else if EqualFold dst src then maxScore
  else
    let dstElements := Split dst AffinitySeparator in
    let srcElements := Split src AffinitySeparator in
    let elementLen := Min (len dstElements) (len srcElements) in
    let elementLen := if elementLen >? maxElementLen then maxElementLen else elementLen in
    let score := countMatches (Z.to_nat elementLen) elementLen dstElements srcElements 0 0 in
    F64.div (F64.of_int score) (F64.of_int maxElementLen).

(** calculateClusterTypeScore 0.0~1.0 larger and better. *)
Definition calculateClusterTypeScore (cluster : model.SchedulerCluster) : float64 :=
  if model.IsDefault cluster then maxScore else minScore.

(** Evaluate the degree of matching between scheduler cluster and dfdaemon. *)
Definition Evaluate (ip hostname : string) (conditions : Conditions)
  (scopes : Scopes) (cluster : model.SchedulerCluster) : float64 :=
  F64.add
    (F64.add
       (F64.add
          (F64.add
             (F64.mul securityDomainAffinityWeight
                (calculateSecurityDomainAffinityScore
                   (at_key conditions ConditionSecurityDomain)
                   (model.SecurityRules (model.SecurityGroup cluster))))
             (F64.mul cidrAffinityWeight
                (calculateCIDRAffinityScore ip (CIDRs scopes))))
          (F64.mul idcAffinityWeight
             (calculateIDCAffinityScore (at_key conditions ConditionIDC) (IDC scopes))))
       (F64.mul locationAffinityWeight
          (calculateMultiElementAffinityScore
             (at_key conditions ConditionLocation) (Location scopes))))
    (F64.mul clusterTypeWeight (calculateClusterTypeScore cluster)).

(** The inner loop of the filter over the security rules of one cluster. *)
Definition appendMatches (securityDomain : string)
  (schedulerCluster : model.SchedulerCluster)
  (clusters : list model.SchedulerCluster) : list model.SchedulerCluster :=
  fold_left
    (fun clusters securityRule =>
       if EqualFold (model.Domain securityRule) securityDomain
       then clusters ++ [schedulerCluster]
       else clusters)
    (model.SecurityRules (model.SecurityGroup schedulerCluster)) clusters.

(** One iteration of the loop of the filter. *)
Definition filterStep (securityDomain : string)
  (clusters : list model.SchedulerCluster)
  (schedulerCluster : model.SchedulerCluster) : list model.SchedulerCluster :=
  (* There are no active schedulers in the scheduler cluster *)
  if len (model.Schedulers schedulerCluster) =? 0 then clusters
  (* Dfdaemon security_domain does not exist, matching all scheduler clusters *)
  else if String.eqb securityDomain "" then clusters ++ [schedulerCluster]
  (* Scheduler cluster is default, matching all dfdaemons *)
  else if model.IsDefault schedulerCluster then clusters ++ [schedulerCluster]
  (* Scheduler cluster SecurityRules does not exist, matching all dfdaemons *)
  else if len (model.SecurityRules (model.SecurityGroup schedulerCluster)) =? 0
  then clusters ++ [schedulerCluster]
  else appendMatches securityDomain schedulerCluster clusters.

(** Filter the scheduler clusters that dfdaemon can be used. *)
Definition FilterSchedulerClusters (conditions : Conditions)
  (schedulerClusters : list model.SchedulerCluster) : list model.SchedulerCluster :=
  let securityDomain := at_key conditions ConditionSecurityDomain in
  fold_left (filterStep securityDomain) schedulerClusters [].

(** The comparator given to [sort.Slice]. *)
Definition less (ip hostname : string) (conditions : Conditions)
  (ci cj : model.SchedulerCluster) : bool :=
  match Decode (model.Scopes ci) with
  | None => false
  | Some si =>
      match Decode (model.Scopes cj) with
      | None => false
      | Some sj =>
          F64.gtb (Evaluate ip hostname conditions si ci)
                  (Evaluate ip hostname conditions sj cj)
      end
  end.

(** FindSchedulerClusters finds scheduler clusters that best matches the
    evaluation. *)
Definition FindSchedulerClusters (schedulerClusters : list model.SchedulerCluster)
  (ip hostname : string) (conditions : Conditions) : result :=
  if len schedulerClusters <=? 0 then Err ErrEmptySchedulerClusters
  else
    let clusters := FilterSchedulerClusters conditions schedulerClusters in
    if len clusters =? 0 then Err (ErrNoMatch conditions)
    else Ok (sortSlice (less ip hostname conditions) clusters).

End Searcher.

(** ** What [sort.Slice] promises

    The result holds the elements of the slice, and when the comparator
    is a strict weak ordering of them (the requirement of the package on
    [less]) no element of the result is less than one before it. *)

Definition strict_weak_on {A} (less : A -> A -> bool) (data : list A) : Prop :=
  (forall a, In a data -> less a a = false) /\
  (forall a b c, In a data -> In b data -> In c data ->
     less a b = true -> less b c = true -> less a c = true) /\
  (forall a b c, In a data -> In b data -> In c data ->
     less a b = false -> less b c = false -> less a c = false).

(** [b] is not less than [a], so [a] may stand before [b]. *)
Definition not_after {A} (less : A -> A -> bool) (a b : A) : Prop :=
  less b a = false.

(** The order of a sorted prefix read from its last element down. *)
Definition not_less {A} (less : A -> A -> bool) (a b : A) : Prop :=
  less a b = false.

Class SortSpec {srt : Sort} : Prop := {
  sortSlice_perm : forall A (less : A -> A -> bool) data,
    Permutation (sortSlice less data) data;
  sortSlice_sorted : forall A (less : A -> A -> bool) data,
    strict_weak_on less data ->
    StronglySorted (not_after less) (sortSlice less data)
}.

(** ** Instances of the imported packages *)

(** [strings.EqualFold] on ASCII strings: bytes are compared after the
    letters A to Z are lowered. *)
Definition lower (c : ascii) : ascii :=
  let n := N_of_ascii c in
  if ((65 <=? n) && (n <=? 90))%N then ascii_of_N (n + 32) else c.

Fixpoint asciiEqualFold (s t : string) : bool :=
  match s, t with
  | EmptyString, EmptyString => true
  | String a s', String b t' => Ascii.eqb (lower a) (lower b) && asciiEqualFold s' t'
  | _, _ => false
  end.

#[export] Instance AsciiStrings : Strings := {| EqualFold := asciiEqualFold |}.

(** [mapstructure.Decode] on the scopes the manager stores: a field is a
    string (for [cidrs], an array of strings), is missing or is null;
    any other value is an error. *)
Definition decodeString (v : option model.JSONValue) : option string :=
  match v with
  | None | Some model.JNull => Some ""
  | Some (model.JString s) => Some s
  | Some _ => None
  end.

Fixpoint decodeStrings (vs : list model.JSONValue) : option (list string) :=
  match vs with
  | [] => Some []
  | v :: vs' =>
      match decodeString (Some v), decodeStrings vs' with
      | Some s, Some ss => Some (s :: ss)
      | _, _ => None
      end
  end.

Definition decodeSlice (v : option model.JSONValue) : option (list string) :=
  match v with
  | None | Some model.JNull => Some []
  | Some (model.JArray vs) => decodeStrings vs
  | Some _ => None
  end.

Definition decodeScopes (input : model.JSONMap) : option Scopes :=
  match decodeString (input !! "idc"), decodeString (input !! "location"),
        decodeSlice (input !! "cidrs") with
  | Some idc, Some location, Some cidrs =>
      Some {| IDC := idc; Location := location; CIDRs := cidrs |}
  | _, _, _ => None
  end.

#[export] Instance ScopesDecoder : Mapstructure := {| Decode := decodeScopes |}.

(** Package [net] on dotted-decimal IPv4 text: an address is a number
    below [2^32], a network is its address and the length of its prefix. *)
Definition digit (c : ascii) : option Z :=
  let n := Z.of_N (N_of_ascii c) in
  if (48 <=? n) && (n <=? 57) then Some (n - 48) else None.

Fixpoint decimal (acc : Z) (s : string) : option Z :=
  match s with
  | EmptyString => Some acc
  | String c rest =>
      match digit c with
      | Some d => decimal (10 * acc + d) rest
      | None => None
      end
  end.

(** A decimal field: one to three digits, no leading zero, at most [max]. *)
Definition field (max : Z) (s : string) : option Z :=
  match s with
  | EmptyString => None
  | String c rest =>
      if Ascii.eqb c "0" && negb (String.eqb rest "") then None
      else if (3 <? len (list_ascii_of_string s)) then None
      else match decimal 0 s with
           | Some n => if n <=? max then Some n else None
           | None => None
           end
  end.

Definition parseIPv4 (s : string) : option Z :=
  match Split s "." with
  | [a; b; c; d] =>
      match field 255 a, field 255 b, field 255 c, field 255 d with
      | Some a, Some b, Some c, Some d =>
          Some (Z.lor (Z.shiftl a 24) (Z.lor (Z.shiftl b 16) (Z.lor (Z.shiftl c 8) d)))
      | _, _, _, _ => None
      end
  | _ => None
  end.

(** The address with the bits after the first [bits] cleared. *)
Definition maskPrefix (addr bits : Z) : Z :=
  Z.shiftl (Z.shiftr addr (32 - bits)) (32 - bits).

Definition parseCIDRv4 (s : string) : option (Z * Z) :=
  match Split s "/" with
  | [addr; bits] =>
      match parseIPv4 addr, field 32 bits with
      | Some a, Some n => Some (maskPrefix a n, n)
      | _, _ => None
      end
  | _ => None
  end.

Definition containsV4 (network : Z * Z) (addr : Z) : bool :=
  maskPrefix addr (snd network) =? fst network.

#[export] Instance NetV4 : Net := {|
  IP := Z;
  IPNet := Z * Z;
  ParseIP := parseIPv4;
  ParseCIDR := parseCIDRv4;
  NetContains := containsV4;
  insertFails := fun _ _ => false
|}.

(** [sort.Slice] on a slice of at most six elements is the insertion sort
    of package [sort]: element [i] moves down while it is less than the
    one before it. The sorted prefix is kept last element first. *)
Fixpoint insertDown {A} (less : A -> A -> bool) (x : A) (before : list A) : list A :=
  match before with
  | [] => [x]
  | y :: before' =>
      if less x y then y :: insertDown less x before' else x :: y :: before'
  end.

Definition insertionSort {A} (less : A -> A -> bool) (data : list A) : list A :=
  rev (fold_left (fun before x => insertDown less x before) data []).

#[export] Instance InsertionSort : Sort := {| sortSlice := @insertionSort |}.

(** ** The weighted sum and the values of the sub-scores *)

(** The sum [Evaluate] returns, as a function of the five sub-scores. *)
Definition weighted (s1 s2 s3 s4 s5 : float64) : float64 :=
  F64.add
    (F64.add
       (F64.add
          (F64.add (F64.mul securityDomainAffinityWeight s1)
                   (F64.mul cidrAffinityWeight s2))
          (F64.mul idcAffinityWeight s3))
       (F64.mul locationAffinityWeight s4))
    (F64.mul clusterTypeWeight s5).

Definition unitScores : list float64 := [minScore; maxScore].

Definition locationScores : list float64 :=
  map (fun k => F64.div (F64.of_int k) (F64.of_int maxElementLen)) [0; 1; 2; 3; 4; 5].

(** Every sum of admissible sub-scores. *)
Definition weightedSums : list float64 :=
  flat_map (fun s1 =>
  flat_map (fun s2 =>
  flat_map (fun s3 =>
  flat_map (fun s4 =>
  map (fun s5 => weighted s1 s2 s3 s4 s5) unitScores)
    locationScores) unitScores) unitScores) unitScores.

(** ** The statements of the specification *)

Section Specification.
Context {str : Strings} {dec : Mapstructure} {net : Net}.

(** The length of the run of matching pairs at the head of [pairs]: the
    count stops at the first pair that does not match. *)
Fixpoint prefixRun (pairs : list (string * string)) : Z :=
  match pairs with
  | [] => 0
  | (a, b) :: rest => if EqualFold a b then 1 + prefixRun rest else 0
  end.

(** Location affinity in the words of the specification. *)
Definition locationAffinitySpec (client cluster : string) : float64 :=
  if decide (client = "" \/ cluster = "") then F64.zero
  else if EqualFold client cluster then F64.one
  else
    let clientSegments := Split client "|" in
    let clusterSegments := Split cluster "|" in
    let n := Z.min (Z.min (len clientSegments) (len clusterSegments)) 5 in
    F64.div
      (F64.of_int (prefixRun (firstn (Z.to_nat n) (combine clientSegments clusterSegments))))
      (F64.of_int 5).

(** IDC affinity in the words of the specification. *)
Definition idcAffinitySpec (client cluster : string) : float64 :=
  if decide (client = "" \/ cluster = "") then F64.zero
  else if EqualFold client cluster
          || existsb (fun alternative => EqualFold client alternative) (Split cluster "|")
  then F64.one
  else F64.zero.

(** CIDR affinity in the words of the specification, from the parsed
    address of the client and the networks of the index. *)
Definition cidrAffinitySpec (addr : option IP) (networks : list IPNet) : float64 :=
  match addr with
  | None => F64.zero
  | Some a =>
      if existsb (fun network => NetContains network a) networks
      then F64.one else F64.zero
  end.

(** The entries of a CIDR set that parse. *)
Definition parseable (cidrs : list string) : list IPNet := omap ParseCIDR cidrs.

(** The rules of a cluster whose domain equals, ignoring case, the
    security domain of the client. *)
Definition matchingRules (securityDomain : string)
  (cluster : model.SchedulerCluster) : list model.SecurityRule :=
  List.filter (fun rule => EqualFold (model.Domain rule) securityDomain)
    (model.SecurityRules (model.SecurityGroup cluster)).

(** The score of a cluster, when its scopes decode. *)
Definition scoreOf (ip hostname : string) (conditions : Conditions)
  (cluster : model.SchedulerCluster) : option float64 :=
  match Decode (model.Scopes cluster) with
  | Some scopes => Some (Evaluate ip hostname conditions scopes cluster)
  | None => None
  end.

(** No cluster comes after one of a strictly lower score. *)
Definition orderedByScore (ip hostname : string) (conditions : Conditions)
  (clusters : list model.SchedulerCluster) : Prop :=
  forall (i j : nat) ci cj xi xj,
    (i < j)%nat ->
    clusters !! i = Some ci -> clusters !! j = Some cj ->
    scoreOf ip hostname conditions ci = Some xi ->
    scoreOf ip hostname conditions cj = Some xj ->
    F64.leb xj xi = true.

End Specification.

(** The number of clusters named [name] in [clusters]. *)
Definition occurrences (name : string) (clusters : list model.SchedulerCluster) : nat :=
  length (filter (fun c => model.Name c = name) clusters).

(** ** Example clusters *)

Definition oneScheduler : list model.Scheduler := [{| model.HostName := "scheduler-0" |}].

Definition noRules : model.SecurityGroupRecord := {| model.SecurityRules := [] |}.

(** The two clusters of the end-to-end example of the specification. *)
Definition defaultCluster : model.SchedulerCluster := {|
  model.Name := "default";
  model.Scopes := ∅;
  model.IsDefault := true;
  model.Schedulers := oneScheduler;
  model.SecurityGroup := noRules
|}.

Definition edgeCluster : model.SchedulerCluster := {|
  model.Name := "edge";
  model.Scopes :=
    {[ "cidrs" := model.JArray [model.JString "10.0.0.0/24"];
       "idc" := model.JString "x" ]};
  model.IsDefault := false;
  model.Schedulers := oneScheduler;
  model.SecurityGroup := noRules
|}.

(** A cluster whose scopes do not decode: its idc is a number. *)
Definition brokenCluster : model.SchedulerCluster := {|
  model.Name := "broken";
  model.Scopes := {[ "idc" := model.JNumber (F64.of_int 42) ]};
  model.IsDefault := false;
  model.Schedulers := oneScheduler;
  model.SecurityGroup := noRules
|}.

(** A cluster without active schedulers. *)
Definition idleCluster : model.SchedulerCluster := {|
  model.Name := "idle";
  model.Scopes := ∅;
  model.IsDefault := true;
  model.Schedulers := [];
  model.SecurityGroup := noRules
|}.

(** A cluster two of whose rules name the same domain, in two spellings. *)
Definition twoRuleCluster : model.SchedulerCluster := {|
  model.Name := "two-rules";
  model.Scopes := ∅;
  model.IsDefault := false;
  model.Schedulers := oneScheduler;
  model.SecurityGroup :=
    {| model.SecurityRules := [ {| model.Domain := "a" |}; {| model.Domain := "A" |} ] |}
|}.

Definition idcX : Conditions := {[ "idc" := "x" ]}.
Definition domainA : Conditions := {[ "security_domain" := "a" ]}.

(** ** Further definitions for the properties of the code *)

Section Eligibility.
Context {str : Strings}.

(** The number of times one iteration of the loop of the filter appends
    the cluster. *)
Definition copies (securityDomain : string) (cluster : model.SchedulerCluster) : nat :=
  if len (model.Schedulers cluster) =? 0 then 0%nat
  else if String.eqb securityDomain "" then 1%nat
  else if model.IsDefault cluster then 1%nat
  else if len (model.SecurityRules (model.SecurityGroup cluster)) =? 0 then 1%nat
  else length (matchingRules securityDomain cluster).

(** The cluster is appended at least once. *)
Definition eligible (securityDomain : string) (cluster : model.SchedulerCluster) : bool :=
  negb (len (model.Schedulers cluster) =? 0) &&
  (String.eqb securityDomain ""
   || model.IsDefault cluster
   || (len (model.SecurityRules (model.SecurityGroup cluster)) =? 0)
   || existsb (fun rule => EqualFold (model.Domain rule) securityDomain)
        (model.SecurityRules (model.SecurityGroup cluster))).

End Eligibility.

(** The cluster has an active scheduler. *)
Definition hasScheduler (cluster : model.SchedulerCluster) : bool :=
  negb (len (model.Schedulers cluster) =? 0).

(** The five sub-scores of one evaluation, and all the values they take
    together. *)
Record subScores := {
  securityDomainScore : float64;
  cidrScore : float64;
  idcScore : float64;
  locationScore : float64;
  clusterTypeScore : float64
}.

Definition weightedOf (s : subScores) : float64 :=
  weighted (securityDomainScore s) (cidrScore s) (idcScore s)
           (locationScore s) (clusterTypeScore s).

Definition allSubScores : list subScores :=
  flat_map (fun s1 =>
  flat_map (fun s2 =>
  flat_map (fun s3 =>
  flat_map (fun s4 =>
  map (fun s5 => {| securityDomainScore := s1; cidrScore := s2; idcScore := s3;
                    locationScore := s4; clusterTypeScore := s5 |}) unitScores)
    locationScores) unitScores) unitScores) unitScores.

(** Each sub-score of [s] is at most the one of [t]. *)
Definition subScores_le (s t : subScores) : bool :=
  F64.leb (securityDomainScore s) (securityDomainScore t) &&
  F64.leb (cidrScore s) (cidrScore t) &&
  F64.leb (idcScore s) (idcScore t) &&
  F64.leb (locationScore s) (locationScore t) &&
  F64.leb (clusterTypeScore s) (clusterTypeScore t).

(** One sub-score of [t] is greater than the one of [s]. *)
Definition subScores_gt (t s : subScores) : bool :=
  F64.gtb (securityDomainScore t) (securityDomainScore s) ||
  F64.gtb (cidrScore t) (cidrScore s) ||
  F64.gtb (idcScore t) (idcScore s) ||
  F64.gtb (locationScore t) (locationScore s) ||
  F64.gtb (clusterTypeScore t) (clusterTypeScore s).

(** Equality of float64 values as data. *)
Definition same (x y : float64) : bool :=
  match x, y with
  | S754_zero a, S754_zero b => Bool.eqb a b
  | S754_infinity a, S754_infinity b => Bool.eqb a b
  | S754_nan, S754_nan => true
  | S754_finite a m e, S754_finite b n f => Bool.eqb a b && Pos.eqb m n && Z.eqb e f
  | _, _ => false
  end.

Definition allEqual (v : float64) (s : subScores) : bool :=
  same (securityDomainScore s) v && same (cidrScore s) v && same (idcScore s) v &&
  same (locationScore s) v && same (clusterTypeScore s) v.

Section SubScores.
Context {str : Strings} {net : Net}.

(** The sub-scores [Evaluate] computes. *)
Definition subScoresOf (ip : string) (conditions : Conditions)
  (scopes : Scopes) (cluster : model.SchedulerCluster) : subScores := {|
  securityDomainScore :=
    calculateSecurityDomainAffinityScore
      (at_key conditions ConditionSecurityDomain)
      (model.SecurityRules (model.SecurityGroup cluster));
  cidrScore := calculateCIDRAffinityScore ip (CIDRs scopes);
  idcScore := calculateIDCAffinityScore (at_key conditions ConditionIDC) (IDC scopes);
  locationScore :=
    calculateMultiElementAffinityScore
      (at_key conditions ConditionLocation) (Location scopes);
  clusterTypeScore := calculateClusterTypeScore cluster
|}.

End SubScores.

(** * Proofs *)

(** ** float64 comparison on scores *)

Section F64Facts.

Lemma ltb_finite m1 e1 m2 e2 :
  SFltb (S754_finite false m1 e1) (S754_finite false m2 e2) = true <->
  e1 < e2 \/ (e1 = e2 /\ (m1 < m2)%positive).
Proof.
  unfold SFltb; simpl.
  destruct (Z.compare_spec e1 e2) as [He|He|He].
  - change (Pos.compare_cont Eq m1 m2) with (Pos.compare m1 m2).
    destruct (Pos.compare_spec m1 m2); split; intros; try discriminate; try lia; auto.
  - split; auto.
  - split; intros; try discriminate; lia.
Qed.

Lemma ltb_finite_false m1 e1 m2 e2 :
  SFltb (S754_finite false m1 e1) (S754_finite false m2 e2) = false <->
  e2 < e1 \/ (e1 = e2 /\ (m2 <= m1)%positive).
Proof.
  destruct (SFltb _ _) eqn:E.
  - apply ltb_finite in E. split; intros; [discriminate | lia].
  - split; auto. intros _.
    destruct (Z.lt_trichotomy e1 e2) as [Hlt|[Heq|Hgt]]; [| |lia].
    + assert (SFltb (S754_finite false m1 e1) (S754_finite false m2 e2) = true)
        by (apply ltb_finite; lia). congruence.
    + destruct (Pos.lt_total m1 m2) as [Hm|[Hm|Hm]]; [|lia|lia].
      assert (SFltb (S754_finite false m1 e1) (S754_finite false m2 e2) = true)
        by (apply ltb_finite; lia). congruence.
Qed.

Lemma gtb_irrefl x : F64.nonneg_finite x = true -> F64.gtb x x = false.
Proof.
  unfold F64.gtb. destruct x as [s|s| |[] m e]; try discriminate; intros _.
  - reflexivity.
  - apply ltb_finite_false. lia.
Qed.

Lemma gtb_trans x y z :
  F64.nonneg_finite x = true -> F64.nonneg_finite y = true ->
  F64.nonneg_finite z = true ->
  F64.gtb x y = true -> F64.gtb y z = true -> F64.gtb x z = true.
Proof.
  unfold F64.gtb.
  destruct x as [?|?| |[] mx ex]; try discriminate;
  destruct y as [?|?| |[] my ey]; try discriminate;
  destruct z as [?|?| |[] mz ez]; try discriminate; intros _ _ _;
  try (intros; discriminate); try (intros; reflexivity).
  rewrite !ltb_finite. lia.
Qed.

Lemma gtb_neg_trans x y z :
  F64.nonneg_finite x = true -> F64.nonneg_finite y = true ->
  F64.nonneg_finite z = true ->
  F64.gtb x y = false -> F64.gtb y z = false -> F64.gtb x z = false.
Proof.
  unfold F64.gtb.
  destruct x as [?|?| |[] mx ex]; try discriminate;
  destruct y as [?|?| |[] my ey]; try discriminate;
  destruct z as [?|?| |[] mz ez]; try discriminate; intros _ _ _;
  try (intros; discriminate); try (intros; reflexivity).
  rewrite !ltb_finite_false. lia.
Qed.

Lemma leb_not_gtb x y :
  F64.nonneg_finite x = true -> F64.nonneg_finite y = true ->
  F64.leb x y = negb (F64.gtb x y).
Proof.
  unfold F64.leb, F64.gtb, SFleb, SFltb.
  destruct x as [?|?| |[] mx ex]; try discriminate;
  destruct y as [?|?| |[] my ey]; try discriminate; intros _ _; try reflexivity.
  simpl.
  rewrite (Z.compare_antisym ex ey).
  destruct (Z.compare_spec ex ey); simpl; try reflexivity.
  change (Pos.compare_cont Eq mx my) with (Pos.compare mx my).
  change (Pos.compare_cont Eq my mx) with (Pos.compare my mx).
  rewrite (Pos.compare_antisym mx my).
  destruct (Pos.compare mx my); reflexivity.
Qed.

End F64Facts.

(** ** The values of the sub-scores *)

Section ScoreValues.
Context {str : Strings} {net : Net}.

Lemma weights_nearest :
  F64.nearest securityDomainAffinityWeight 4 10 = true /\
  F64.nearest cidrAffinityWeight 3 10 = true /\
  F64.nearest idcAffinityWeight 15 100 = true /\
  F64.nearest locationAffinityWeight 1 10 = true /\
  F64.nearest clusterTypeWeight 5 100 = true.
Proof. repeat split; vm_compute; reflexivity. Qed.

Lemma securityDomain_values securityDomain securityRules :
  In (calculateSecurityDomainAffinityScore securityDomain securityRules) unitScores.
Proof.
  unfold calculateSecurityDomainAffinityScore, unitScores.
  destruct (String.eqb _ _); [now left|].
  destruct (_ =? _); [now left | right; now left].
Qed.

Lemma cidr_values ip cidrs :
  In (calculateCIDRAffinityScore ip cidrs) unitScores.
Proof.
  unfold calculateCIDRAffinityScore, unitScores.
  destruct (Contains _ _) as [[]|]; simpl; auto.
Qed.

Lemma idc_values dst src :
  In (calculateIDCAffinityScore dst src) unitScores.
Proof.
  unfold calculateIDCAffinityScore, unitScores.
  destruct (_ || _); [now left|].
  destruct (EqualFold _ _); [right; now left|].
  destruct (existsb _ _); simpl; auto.
Qed.

Lemma clusterType_values cluster :
  In (calculateClusterTypeScore cluster) unitScores.
Proof.
  unfold calculateClusterTypeScore, unitScores.
  destruct (model.IsDefault _); simpl; auto.
Qed.

(** The loop adds at most one to the score for each index left. *)
Lemma countMatches_bounds fuel elementLen dstElements srcElements i score :
  score <= countMatches fuel elementLen dstElements srcElements i score /\
  countMatches fuel elementLen dstElements srcElements i score
    <= score + Z.max 0 (elementLen - i).
Proof.
  revert i score. induction fuel as [|fuel IH]; intros i score; simpl; [lia|].
  destruct (Z.ltb_spec i elementLen); [|lia].
  destruct (negb _); [lia|].
  specialize (IH (i + 1) (score + 1)). lia.
Qed.

Lemma location_values dst src :
  In (calculateMultiElementAffinityScore dst src) locationScores.
Proof.
  unfold calculateMultiElementAffinityScore.
  destruct (_ || _); [now left|].
  destruct (EqualFold _ _); [do 5 right; now left|].
  set (n0 := Min _ _).
  set (n := if n0 >? maxElementLen then maxElementLen else n0).
  assert (Hn : n <= 5).
  { subst n. unfold maxElementLen. destruct (Z.gtb_spec n0 5); lia. }
  pose proof (countMatches_bounds (Z.to_nat n) n
                (Split dst AffinitySeparator) (Split src AffinitySeparator) 0 0) as Hb.
  set (k := countMatches _ _ _ _ _ _) in *.
  assert (Hk : k = 0 \/ k = 1 \/ k = 2 \/ k = 3 \/ k = 4 \/ k = 5) by lia.
  unfold locationScores.
  destruct Hk as [->|[->|[->|[->|[->| ->]]]]]; simpl; auto 10.
Qed.

Lemma Evaluate_weighted ip hostname conditions scopes cluster :
  Evaluate ip hostname conditions scopes cluster =
  weighted
    (calculateSecurityDomainAffinityScore
       (at_key conditions ConditionSecurityDomain)
       (model.SecurityRules (model.SecurityGroup cluster)))
    (calculateCIDRAffinityScore ip (CIDRs scopes))
    (calculateIDCAffinityScore (at_key conditions ConditionIDC) (IDC scopes))
    (calculateMultiElementAffinityScore (at_key conditions ConditionLocation) (Location scopes))
    (calculateClusterTypeScore cluster).
Proof. reflexivity. Qed.

Lemma weighted_in_sums s1 s2 s3 s4 s5 :
  In s1 unitScores -> In s2 unitScores -> In s3 unitScores ->
  In s4 locationScores -> In s5 unitScores ->
  In (weighted s1 s2 s3 s4 s5) weightedSums.
Proof.
  intros H1 H2 H3 H4 H5. unfold weightedSums.
  apply in_flat_map; exists s1; split; [assumption|].
  apply in_flat_map; exists s2; split; [assumption|].
  apply in_flat_map; exists s3; split; [assumption|].
  apply in_flat_map; exists s4; split; [assumption|].
  apply in_map; assumption.
Qed.

Lemma Evaluate_in_sums ip hostname conditions scopes cluster :
  In (Evaluate ip hostname conditions scopes cluster) weightedSums.
Proof.
  rewrite Evaluate_weighted.
  apply weighted_in_sums;
    auto using securityDomain_values, cidr_values, idc_values,
               location_values, clusterType_values.
Qed.

Lemma unitScores_in_unit x : In x unitScores -> F64.in_unit x = true.
Proof.
  intros Hx.
  assert (Hall : forallb F64.in_unit unitScores = true) by (vm_compute; reflexivity).
  rewrite forallb_forall in Hall. auto.
Qed.

Lemma locationScores_in_unit x : In x locationScores -> F64.in_unit x = true.
Proof.
  intros Hx.
  assert (Hall : forallb F64.in_unit locationScores = true) by (vm_compute; reflexivity).
  rewrite forallb_forall in Hall. auto.
Qed.

Lemma weightedSums_in_unit x : In x weightedSums -> F64.in_unit x = true.
Proof.
  intros Hx.
  assert (Hall : forallb F64.in_unit weightedSums = true) by (vm_compute; reflexivity).
  rewrite forallb_forall in Hall. auto.
Qed.

Lemma weightedSums_nonneg x : In x weightedSums -> F64.nonneg_finite x = true.
Proof.
  intros Hx.
  assert (Hall : forallb F64.nonneg_finite weightedSums = true) by (vm_compute; reflexivity).
  rewrite forallb_forall in Hall. auto.
Qed.

Lemma Evaluate_nonneg ip hostname conditions scopes cluster :
  F64.nonneg_finite (Evaluate ip hostname conditions scopes cluster) = true.
Proof. apply weightedSums_nonneg, Evaluate_in_sums. Qed.

(** C1. Each of the five sub-scores is a float64 in [0.0, 1.0], whatever
    its arguments, and so is the weighted sum [Evaluate] returns, for
    every client IP, hostname, condition map, scopes and cluster. *)
Theorem scores_in_unit_interval :
  (forall securityDomain securityRules,
     F64.in_unit (calculateSecurityDomainAffinityScore securityDomain securityRules) = true) /\
  (forall ip cidrs, F64.in_unit (calculateCIDRAffinityScore ip cidrs) = true) /\
  (forall dst src, F64.in_unit (calculateIDCAffinityScore dst src) = true) /\
  (forall dst src, F64.in_unit (calculateMultiElementAffinityScore dst src) = true) /\
  (forall cluster, F64.in_unit (calculateClusterTypeScore cluster) = true) /\
  (forall ip hostname conditions scopes cluster,
     F64.in_unit (Evaluate ip hostname conditions scopes cluster) = true).
Proof.
  repeat split; intros.
  - apply unitScores_in_unit, securityDomain_values.
  - apply unitScores_in_unit, cidr_values.
  - apply unitScores_in_unit, idc_values.
  - apply locationScores_in_unit, location_values.
  - apply unitScores_in_unit, clusterType_values.
  - apply weightedSums_in_unit, Evaluate_in_sums.
Qed.

End ScoreValues.

(** ** Security-domain affinity *)

(** C7. The security-domain sub-score is 1.0 exactly when the declared
    security domain is not empty and the cluster has a security rule, and
    0.0 otherwise; it is the same for any two inputs that agree on whether
    the domain is empty and on whether there is a rule, whatever the
    domains are. *)
Theorem securityDomain_affinity_presence securityDomain securityRules :
  (calculateSecurityDomainAffinityScore securityDomain securityRules = maxScore <->
     securityDomain <> "" /\ securityRules <> []) /\
  (calculateSecurityDomainAffinityScore securityDomain securityRules = minScore <->
     ~ (securityDomain <> "" /\ securityRules <> [])) /\
  (forall securityDomain' securityRules',
     (securityDomain' = "" <-> securityDomain = "") ->
     (securityRules' = [] <-> securityRules = []) ->
     calculateSecurityDomainAffinityScore securityDomain' securityRules' =
     calculateSecurityDomainAffinityScore securityDomain securityRules).
Proof.
  assert (Hne : maxScore <> minScore) by discriminate.
  unfold calculateSecurityDomainAffinityScore, len.
  destruct (String.eqb_spec securityDomain "") as [Hd|Hd];
    [|destruct securityRules as [|r rs]; simpl].
  - split; [|split].
    + split; [intros E; now symmetry in E | tauto].
    + split; [tauto | reflexivity].
    + intros d' rs' Hd' _. apply Hd' in Hd. subst d'. reflexivity.
  - split; [|split].
    + split; [intros E; now symmetry in E | tauto].
    + split; [tauto | reflexivity].
    + intros d' rs' _ Hrs. destruct Hrs as [_ Hrs]. rewrite (Hrs eq_refl).
      destruct (String.eqb d' ""); reflexivity.
  - split; [|split].
    + split; [intros _; split; [assumption | discriminate] | reflexivity].
    + split; [intros E; now apply Hne in E | intros Hn; exfalso; apply Hn; split; [assumption | discriminate]].
    + intros d' rs' Hd' Hrs.
      destruct (String.eqb_spec d' "") as [E|E]; [apply Hd' in E; contradiction|].
      destruct rs' as [|r' rs']; [destruct Hrs as [Hrs _]; now specialize (Hrs eq_refl)|].
      reflexivity.
Qed.

Lemma securityDomain_affinity_presence_witness :
  calculateSecurityDomainAffinityScore "b" [ {| model.Domain := "y" |} ] =
  calculateSecurityDomainAffinityScore "a" [ {| model.Domain := "x" |} ].
Proof.
  apply (proj2 (proj2 (securityDomain_affinity_presence "a" [ {| model.Domain := "x" |} ]))).
  - split; intros; discriminate.
  - split; intros; discriminate.
Defined.

(** ** [strings.Split] *)

Section SplitFacts.

Lemma split_at_length sep s hd rest :
  split_at sep s = (hd, Some rest) -> (String.length rest < String.length s)%nat.
Proof.
  revert hd rest. induction s as [|c s IH]; intros hd rest; simpl; [discriminate|].
  destruct (Ascii.eqb c sep).
  - intros [= <- <-]. lia.
  - destruct (split_at sep s) as [hd' tl'] eqn:E. intros [= <- ->].
    specialize (IH _ _ eq_refl). lia.
Qed.

Lemma split_at_None sep s hd :
  split_at sep s = (hd, None) -> hd = s /\ ~ In sep (list_ascii_of_string s).
Proof.
  revert hd. induction s as [|c s IH]; intros hd; simpl.
  - intros [= <-]. auto.
  - destruct (Ascii.eqb_spec c sep); [discriminate|].
    destruct (split_at sep s) as [hd' tl'] eqn:E. intros [= <- ->].
    destruct (IH _ eq_refl) as [-> Hn]. split; [reflexivity|].
    intros [Hc|Hin]; [congruence | contradiction].
Qed.

Lemma split_at_Some sep s hd rest :
  split_at sep s = (hd, Some rest) ->
  s = String.append hd (String sep rest) /\ ~ In sep (list_ascii_of_string hd).
Proof.
  revert hd. induction s as [|c s IH]; intros hd; simpl; [discriminate|].
  destruct (Ascii.eqb_spec c sep) as [->|Hc].
  - intros [= <- <-]. simpl. auto.
  - destruct (split_at sep s) as [hd' tl'] eqn:E. intros [= <- ->].
    destruct (IH _ eq_refl) as [-> Hn]. split; [reflexivity|].
    simpl. intros [Hc'|Hin]; [congruence | contradiction].
Qed.

Lemma split_fuel_nonempty fuel sep s : split_fuel fuel sep s <> [].
Proof.
  destruct fuel; simpl; [discriminate|].
  destruct (split_at sep s) as [hd [rest|]]; discriminate.
Qed.

Lemma split_fuel_join fuel sep s :
  (String.length s <= fuel)%nat -> join sep (split_fuel fuel sep s) = s.
Proof.
  revert s. induction fuel as [|fuel IH]; intros s Hlen; simpl; [reflexivity|].
  destruct (split_at sep s) as [hd [rest|]] eqn:E.
  - pose proof (split_at_length _ _ _ _ E) as Hlt.
    destruct (split_at_Some _ _ _ _ E) as [-> _].
    assert (Hj : join sep (split_fuel fuel sep rest) = rest) by (apply IH; lia).
    simpl. destruct (split_fuel fuel sep rest) eqn:Es.
    + now apply split_fuel_nonempty in Es.
    + rewrite Hj. reflexivity.
  - destruct (split_at_None _ _ _ E) as [-> _]. reflexivity.
Qed.

Lemma split_fuel_segments fuel sep s segment :
  (String.length s <= fuel)%nat ->
  In segment (split_fuel fuel sep s) -> ~ In sep (list_ascii_of_string segment).
Proof.
  revert s. induction fuel as [|fuel IH]; intros s Hlen; simpl.
  - destruct s; simpl in Hlen; [|lia]. intros [<-|[]]. simpl. tauto.
  - destruct (split_at sep s) as [hd [rest|]] eqn:E.
    + pose proof (split_at_length _ _ _ _ E) as Hlt.
      destruct (split_at_Some _ _ _ _ E) as [_ Hn].
      intros [<-|Hin]; [assumption|].
      apply (IH rest); [lia | assumption].
    + destruct (split_at_None _ _ _ E) as [-> Hn]. intros [<-|[]]. assumption.
Qed.

(** [Split] cuts a string at every separator and nowhere else: joining
    the segments with the separator gives the string back, and no segment
    holds the separator. *)
Lemma Split_correct s sep :
  join sep (Split s sep) = s /\
  forall segment, In segment (Split s sep) -> ~ In sep (list_ascii_of_string segment).
Proof.
  split.
  - apply split_fuel_join. lia.
  - intros segment. apply split_fuel_segments. lia.
Qed.

End SplitFacts.

(** ** IDC and location affinity *)

Section Affinity.
Context {str : Strings}.

Lemma empty_check (dst src : string) :
  String.eqb dst "" || String.eqb src "" =
  if decide (dst = "" \/ src = "") then true else false.
Proof.
  destruct (String.eqb_spec dst ""), (String.eqb_spec src ""), (decide _);
    simpl; tauto.
Qed.

Lemma skipn_nth (xs : list string) (k : nat) :
  (k < length xs)%nat -> skipn k xs = nth k xs "" :: skipn (S k) xs.
Proof.
  revert k. induction xs as [|x xs IH]; intros k Hk; simpl in Hk; [lia|].
  destruct k as [|k]; [reflexivity|].
  simpl. apply IH. lia.
Qed.

(** From index [i] on, the loop counts the run of matching pairs among
    the pairs it has left. *)
Lemma countMatches_run fuel elementLen dstElements srcElements i score :
  0 <= i -> elementLen <= len dstElements -> elementLen <= len srcElements ->
  (Z.to_nat (elementLen - i) <= fuel)%nat ->
  countMatches fuel elementLen dstElements srcElements i score =
  score + prefixRun (firstn (Z.to_nat (elementLen - i))
                       (combine (skipn (Z.to_nat i) dstElements)
                                (skipn (Z.to_nat i) srcElements))).
Proof.
  unfold len. intros Hi Hd Hs. revert i score Hi.
  induction fuel as [|fuel IH]; intros i score Hi Hfuel; simpl.
  - replace (Z.to_nat (elementLen - i)) with 0%nat by lia. simpl. lia.
  - destruct (Z.ltb_spec i elementLen) as [Hlt|Hge].
    + rewrite (skipn_nth dstElements (Z.to_nat i)) by lia.
      rewrite (skipn_nth srcElements (Z.to_nat i)) by lia.
      replace (Z.to_nat (elementLen - i)) with (S (Z.to_nat (elementLen - (i + 1)))) by lia.
      simpl. unfold at_index.
      destruct (EqualFold _ _); simpl; [|lia].
      rewrite IH by lia.
      replace (Z.to_nat (i + 1)) with (S (Z.to_nat i)) by lia. lia.
    + replace (Z.to_nat (elementLen - i)) with 0%nat by lia. simpl. lia.
Qed.

End Affinity.

(** C6. The IDC sub-score is 0.0 when the idc of the client or of the
    cluster is empty; otherwise it is 1.0 when the idc of the client
    equals, ignoring case, the whole idc of the cluster or one of its
    alternatives separated by bars, and 0.0 when it equals none. With idc
    x the cluster idc x|y|z scores 1.0, with idc w it scores 0.0. *)
Theorem idc_affinity_spec :
  (forall (str : Strings) dst src,
     calculateIDCAffinityScore dst src = idcAffinitySpec dst src /\
     (calculateIDCAffinityScore dst src = F64.one <->
        dst <> "" /\ src <> "" /\
        (EqualFold dst src = true \/
         exists alternative,
           In alternative (Split src "|") /\ EqualFold dst alternative = true)) /\
     (calculateIDCAffinityScore dst src <> F64.one ->
        calculateIDCAffinityScore dst src = F64.zero)) /\
  @calculateIDCAffinityScore AsciiStrings "x" "x|y|z" = F64.one /\
  @calculateIDCAffinityScore AsciiStrings "w" "x|y|z" = F64.zero.
Proof.
  split; [|split; vm_compute; reflexivity].
  intros str dst src.
  unfold calculateIDCAffinityScore, idcAffinitySpec.
  change AffinitySeparator with "|"%char.
  assert (Hne : F64.zero <> F64.one) by discriminate.
  rewrite empty_check.
  destruct (decide (dst = "" \/ src = "")) as [He|He].
  { repeat split; tauto. }
  destruct (EqualFold dst src) eqn:Hfold; simpl.
  { repeat split; tauto. }
  destruct (existsb _ _) eqn:Hex.
  - apply existsb_exists in Hex. repeat split; tauto.
  - repeat split; try tauto.
    intros (_ & _ & [E|(alternative & Hin & Hmatch)]); [discriminate|].
    assert (Hyes : existsb (fun srcElement => EqualFold dst srcElement)
                     (Split src "|") = true)
      by (apply existsb_exists; exists alternative; auto).
    congruence.
Qed.

Lemma idc_affinity_spec_witness :
  @calculateIDCAffinityScore AsciiStrings "w" "x|y|z" = F64.zero.
Proof.
  apply (proj2 (proj2 (proj1 idc_affinity_spec AsciiStrings "w" "x|y|z"))).
  vm_compute. discriminate.
Defined.

(** C5. The location sub-score is 0.0 when the location of the client or
    of the cluster is empty and 1.0 when the two are equal ignoring case;
    otherwise it is the length of the run of matching segments, counted
    from the first pair over the first min(client segments, cluster
    segments, 5) pairs and stopped at the first mismatch, divided by 5.0.
    The client r1|z1|rack1 and the cluster r1|z1|rack2 score the float64
    nearest to 2/5. *)
Theorem location_affinity_spec :
  (forall (str : Strings) dst src,
     calculateMultiElementAffinityScore dst src = locationAffinitySpec dst src) /\
  @calculateMultiElementAffinityScore AsciiStrings "r1|z1|rack1" "r1|z1|rack2"
    = S754_finite false 7205759403792794 (-54) /\
  F64.nearest (S754_finite false 7205759403792794 (-54)) 2 5 = true.
Proof.
  split; [|split; vm_compute; reflexivity].
  intros str dst src.
  unfold calculateMultiElementAffinityScore, locationAffinitySpec.
  rewrite empty_check. destruct (decide _) as [He|He]; [reflexivity|].
  destruct (EqualFold dst src); [reflexivity|].
  change AffinitySeparator with "|"%char.
  set (d := Split dst "|"). set (s := Split src "|").
  set (n := if Min (len d) (len s) >? maxElementLen then maxElementLen else Min (len d) (len s)).
  assert (Hn : n = Z.min (Z.min (len d) (len s)) 5).
  { subst n. unfold Min, maxElementLen.
    destruct (Z.ltb_spec (len d) (len s));
      match goal with |- context [?a >? 5] => destruct (Z.gtb_spec a 5) end; lia. }
  cbv zeta. fold n.
  rewrite countMatches_run; [| lia | lia | lia | lia].
  rewrite Z.sub_0_r, Hn. reflexivity.
Qed.

(** ** CIDR affinity *)

Section Cidr.
Context {net : Net}.

Lemma cidr_refines ip cidrs :
  calculateCIDRAffinityScore ip cidrs =
  cidrAffinitySpec (ParseIP ip) (constructRanger cidrs).
Proof.
  unfold calculateCIDRAffinityScore, cidrAffinitySpec, Contains.
  destruct (ParseIP ip); [|reflexivity].
  destruct (existsb _ _); reflexivity.
Qed.

(** Only entries that parse reach the ranger. *)
Lemma insertCIDR_sound cidrs : forall ranger network,
  In network (fold_left insertCIDR cidrs ranger) ->
  In network ranger \/ exists cidr, In cidr cidrs /\ ParseCIDR cidr = Some network.
Proof.
  induction cidrs as [|cidr cidrs IH]; intros ranger network; simpl; [auto|].
  intros Hin. apply IH in Hin. destruct Hin as [Hin|(c & Hc & Hp)].
  - unfold insertCIDR, Insert in Hin.
    destruct (ParseCIDR cidr) as [n|] eqn:Hp; [|auto].
    destruct (insertFails ranger n); [auto|].
    apply in_app_or in Hin. destruct Hin as [Hin|[<-|[]]]; [auto|].
    right. exists cidr. auto.
  - right. exists c. auto.
Qed.

(** When the index takes every network, it holds the entries that parse,
    in their order: an entry that does not parse changes nothing for the
    others. *)
Lemma insertCIDR_complete cidrs : forall ranger,
  (forall r n, insertFails r n = false) ->
  fold_left insertCIDR cidrs ranger = ranger ++ parseable cidrs.
Proof.
  unfold parseable.
  induction cidrs as [|cidr cidrs IH]; intros ranger Hok; simpl.
  - now rewrite app_nil_r.
  - rewrite IH by assumption. unfold insertCIDR, Insert. cbn.
    destruct (ParseCIDR cidr) as [n|]; [|reflexivity].
    rewrite Hok. now rewrite <- app_assoc.
Qed.

End Cidr.

(** C8. The CIDR sub-score is 1.0 when the IP of the client parses and one
    of the networks of the index contains it, and 0.0 otherwise, so it is
    never an error: an IP that does not parse, an entry that does not
    parse and an entry the index refuses all end in a score. The index
    holds only entries that parse, and all of them, each for itself, when
    it refuses none. The CIDR set 10.0.0.0/24 scores 1.0 for 10.0.0.5 and
    0.0 for 10.0.1.5, also next to an entry that does not parse. *)
Theorem cidr_affinity_spec :
  (forall (net : Net) ip cidrs,
     calculateCIDRAffinityScore ip cidrs
       = cidrAffinitySpec (ParseIP ip) (constructRanger cidrs) /\
     (forall network, In network (constructRanger cidrs) ->
        exists cidr, In cidr cidrs /\ ParseCIDR cidr = Some network) /\
     ((forall ranger network, insertFails ranger network = false) ->
        calculateCIDRAffinityScore ip cidrs
          = cidrAffinitySpec (ParseIP ip) (parseable cidrs))) /\
  @calculateCIDRAffinityScore NetV4 "10.0.0.5" ["10.0.0.0/24"] = F64.one /\
  @calculateCIDRAffinityScore NetV4 "10.0.1.5" ["10.0.0.0/24"] = F64.zero /\
  @calculateCIDRAffinityScore NetV4 "10.0.0.5" ["10.0.0.0/33"; "10.0.0.0/24"] = F64.one /\
  @calculateCIDRAffinityScore NetV4 "10.0.1.5" ["10.0.0.0/33"; "10.0.0.0/24"] = F64.zero.
Proof.
  split; [|repeat split; vm_compute; reflexivity].
  intros net ip cidrs. split; [apply cidr_refines|]. split.
  - intros network Hin. unfold constructRanger in Hin.
    apply insertCIDR_sound in Hin. destruct Hin as [[]|Hin]. exact Hin.
  - intros Hok. rewrite cidr_refines. unfold constructRanger.
    rewrite insertCIDR_complete by assumption. reflexivity.
Qed.

Lemma cidr_affinity_spec_witness :
  @calculateCIDRAffinityScore NetV4 "10.0.0.5" ["10.0.0.0/33"; "10.0.0.0/24"]
  = @cidrAffinitySpec NetV4 (Some 167772165) [(167772160, 24)].
Proof.
  apply (proj2 (proj2 (proj1 cidr_affinity_spec NetV4 "10.0.0.5"
                         ["10.0.0.0/33"; "10.0.0.0/24"]))).
  intros ranger network. reflexivity.
Defined.

(** ** The filter *)

Section Filter.
Context {str : Strings}.

(** The loop over the rules adds the cluster once for every rule that
    matches. *)
Lemma appendMatches_repeat securityDomain cluster clusters :
  appendMatches securityDomain cluster clusters =
  clusters ++ repeat cluster (length (matchingRules securityDomain cluster)).
Proof.
  unfold appendMatches, matchingRules.
  generalize (model.SecurityRules (model.SecurityGroup cluster)) as rules.
  intros rules. revert clusters.
  induction rules as [|rule rules IH]; intros clusters; simpl.
  - now rewrite app_nil_r.
  - destruct (EqualFold _ _); [|apply IH].
    rewrite IH, <- app_assoc. reflexivity.
Qed.

Lemma filterStep_app securityDomain clusters cluster :
  filterStep securityDomain clusters cluster =
  clusters ++ filterStep securityDomain [] cluster.
Proof.
  unfold filterStep.
  repeat match goal with
         | |- context [if ?b then _ else _] => destruct b
         end; try reflexivity; try (now rewrite app_nil_r).
  rewrite !appendMatches_repeat. reflexivity.
Qed.

(** The filter keeps, for each cluster in turn, what its step adds. *)
Lemma Filter_flat_map conditions schedulerClusters :
  FilterSchedulerClusters conditions schedulerClusters =
  flat_map (filterStep (at_key conditions ConditionSecurityDomain) []) schedulerClusters.
Proof.
  unfold FilterSchedulerClusters. cbv zeta.
  generalize (at_key conditions ConditionSecurityDomain) as securityDomain.
  intros securityDomain.
  enough (Hgen : forall clusters,
    fold_left (filterStep securityDomain) schedulerClusters clusters =
    clusters ++ flat_map (filterStep securityDomain []) schedulerClusters)
    by apply (Hgen []).
  induction schedulerClusters as [|c cs IH]; intros clusters; simpl.
  - now rewrite app_nil_r.
  - rewrite IH, filterStep_app, app_assoc. reflexivity.
Qed.

Lemma len_zero {A} (xs : list A) : (len xs =? 0) = true <-> xs = [].
Proof.
  unfold len. destruct xs; simpl; split; intros; try reflexivity; discriminate.
Qed.

(** What a step adds is the cluster itself, and only if it has a scheduler. *)
Lemma filterStep_In securityDomain cluster x :
  In x (filterStep securityDomain [] cluster) ->
  x = cluster /\ model.Schedulers cluster <> [].
Proof.
  unfold filterStep.
  destruct (len (model.Schedulers cluster) =? 0) eqn:Hs; [intros []|].
  assert (Hne : model.Schedulers cluster <> []).
  { intros E. apply len_zero in E. congruence. }
  rewrite appendMatches_repeat.
  repeat match goal with
         | |- context [if ?b then _ else _] => destruct b
         end; simpl; try (intros [<-|[]]; auto).
  intros Hin. apply repeat_spec in Hin. auto.
Qed.

Lemma Filter_In conditions schedulerClusters x :
  In x (FilterSchedulerClusters conditions schedulerClusters) ->
  In x schedulerClusters /\ model.Schedulers x <> [].
Proof.
  rewrite Filter_flat_map. intros Hin.
  apply in_flat_map in Hin. destruct Hin as (c & Hc & Hin).
  apply filterStep_In in Hin. destruct Hin as [-> Hne]. auto.
Qed.

(** A cluster that is not the default, has a scheduler and has rules is
    kept, for a client that declares a security domain, exactly when one
    of its rules matches the domain. *)
Lemma Filter_includes_iff conditions schedulerClusters cluster :
  at_key conditions ConditionSecurityDomain <> "" ->
  In cluster schedulerClusters ->
  model.IsDefault cluster = false ->
  model.Schedulers cluster <> [] ->
  model.SecurityRules (model.SecurityGroup cluster) <> [] ->
  In cluster (FilterSchedulerClusters conditions schedulerClusters) <->
  exists rule,
    In rule (model.SecurityRules (model.SecurityGroup cluster)) /\
    EqualFold (model.Domain rule) (at_key conditions ConditionSecurityDomain) = true.
Proof.
  intros Hd Hin Hdef Hs Hr. rewrite Filter_flat_map.
  set (securityDomain := at_key conditions ConditionSecurityDomain) in *.
  assert (Hstep : filterStep securityDomain [] cluster =
                  repeat cluster (length (matchingRules securityDomain cluster))).
  { unfold filterStep.
    destruct (len (model.Schedulers cluster) =? 0) eqn:E1;
      [apply len_zero in E1; contradiction|].
    destruct (String.eqb_spec securityDomain ""); [contradiction|].
    rewrite Hdef.
    destruct (len (model.SecurityRules _) =? 0) eqn:E2;
      [apply len_zero in E2; contradiction|].
    now rewrite appendMatches_repeat. }
  split.
  - intros Hf. apply in_flat_map in Hf. destruct Hf as (c & Hc & Hf).
    destruct (filterStep_In _ _ _ Hf) as [<- _].
    rewrite Hstep in Hf.
    destruct (matchingRules securityDomain cluster) as [|rule rules] eqn:Em; [destruct Hf|].
    assert (Hm : In rule (matchingRules securityDomain cluster)) by (rewrite Em; now left).
    unfold matchingRules in Hm. apply filter_In in Hm. exists rule. exact Hm.
  - intros (rule & Hrule & Hm).
    apply in_flat_map. exists cluster. split; [assumption|].
    rewrite Hstep.
    assert (Hin' : In rule (matchingRules securityDomain cluster))
      by (unfold matchingRules; apply filter_In; auto).
    destruct (matchingRules securityDomain cluster); [destruct Hin'|]. now left.
Qed.

End Filter.

(** C2. For the security domain a, the filter is given one cluster, not
    the default, with one scheduler and the two rules a and A. Both rules
    match, and the loop over the rules adds the cluster for each of them:
    the result holds the cluster twice. *)
Theorem filter_repeats_cluster :
  @FilterSchedulerClusters AsciiStrings domainA [twoRuleCluster]
    = [twoRuleCluster; twoRuleCluster] /\
  occurrences "two-rules" [twoRuleCluster] = 1%nat /\
  occurrences "two-rules"
    (@FilterSchedulerClusters AsciiStrings domainA [twoRuleCluster]) = 2%nat.
Proof. repeat split; vm_compute; reflexivity. Qed.

(** ** The insertion sort keeps the promise of [sort.Slice] *)

Section InsertionSortFacts.
Context {A : Type} (less : A -> A -> bool).

Lemma insertDown_perm x before :
  Permutation (insertDown less x before) (x :: before).
Proof.
  induction before as [|y before IH]; simpl; [reflexivity|].
  destruct (less x y); [|reflexivity].
  rewrite IH. apply perm_swap.
Qed.

Lemma fold_insertDown_perm data : forall before,
  Permutation (fold_left (fun before x => insertDown less x before) data before)
              (data ++ before).
Proof.
  induction data as [|x data IH]; intros before; simpl; [reflexivity|].
  rewrite IH, insertDown_perm. symmetry. apply Permutation_middle.
Qed.

Lemma insertionSort_perm data : Permutation (insertionSort less data) data.
Proof.
  unfold insertionSort. rewrite <- Permutation_rev, fold_insertDown_perm.
  now rewrite app_nil_r.
Qed.

Lemma insertDown_sorted data x before :
  strict_weak_on less data -> In x data -> incl before data ->
  StronglySorted (not_less less) before ->
  StronglySorted (not_less less) (insertDown less x before).
Proof.
  intros (Hirr & Htr & Hneg) Hx. induction before as [|y before IH]; intros Hincl Hs; simpl.
  - constructor; constructor.
  - assert (Hy : In y data) by (apply Hincl; now left).
    assert (Hincl' : incl before data) by (intros z Hz; apply Hincl; now right).
    apply StronglySorted_inv in Hs. destruct Hs as [Hs Hall].
    rewrite List.Forall_forall in Hall.
    destruct (less x y) eqn:Hxy.
    + constructor; [apply IH; assumption|].
      apply List.Forall_forall. intros z Hz.
      apply (Permutation_in _ (insertDown_perm x before)) in Hz.
      destruct Hz as [<-|Hz]; [|now apply Hall].
      unfold not_less. destruct (less y x) eqn:Hyx; [|reflexivity].
      rewrite <- (Hirr x Hx). symmetry. now apply (Htr x y x).
    + constructor; [constructor; [assumption | now apply List.Forall_forall]|].
      apply List.Forall_forall. intros z [<-|Hz]; [exact Hxy|].
      apply (Hneg x y z); auto. now apply Hall.
Qed.

Lemma fold_insertDown_sorted universe data : forall before,
  strict_weak_on less universe -> incl data universe -> incl before universe ->
  StronglySorted (not_less less) before ->
  StronglySorted (not_less less)
    (fold_left (fun before x => insertDown less x before) data before).
Proof.
  induction data as [|x data IH]; intros before Hsw Hd Hb Hs; simpl; [assumption|].
  assert (Hx : In x universe) by (apply Hd; now left).
  apply IH; try assumption.
  - intros z Hz. apply Hd. now right.
  - intros z Hz. apply (Permutation_in _ (insertDown_perm x before)) in Hz.
    destruct Hz as [<-|Hz]; auto.
  - now apply (insertDown_sorted universe).
Qed.

Lemma StronglySorted_snoc (R : A -> A -> Prop) xs a :
  StronglySorted R xs -> Forall (fun b => R b a) xs ->
  StronglySorted R (xs ++ [a]).
Proof.
  induction 1 as [|b xs Hs IH Hall]; intros Ha; simpl.
  - constructor; constructor.
  - apply Forall_inv in Ha as Hb. apply Forall_inv_tail in Ha.
    constructor; [now apply IH|].
    apply Forall_app. split; [assumption | now constructor].
Qed.

Lemma StronglySorted_rev (R : A -> A -> Prop) xs :
  StronglySorted R xs -> StronglySorted (fun a b => R b a) (rev xs).
Proof.
  induction 1 as [|a xs Hs IH Hall]; simpl; [constructor|].
  apply StronglySorted_snoc; [assumption|].
  apply List.Forall_forall. intros b Hb. apply in_rev in Hb.
  rewrite List.Forall_forall in Hall. now apply Hall.
Qed.

Lemma insertionSort_sorted data :
  strict_weak_on less data ->
  StronglySorted (not_after less) (insertionSort less data).
Proof.
  intros Hsw. unfold insertionSort.
  apply (StronglySorted_rev (not_less less)).
  apply (fold_insertDown_sorted data); auto using incl_refl.
  - intros z [].
  - constructor.
Qed.

End InsertionSortFacts.

#[export] Instance InsertionSort_spec : @SortSpec InsertionSort.
Proof.
  split; intros A less data.
  - apply insertionSort_perm.
  - apply insertionSort_sorted.
Qed.

(** ** Ranking *)

Section Ranking.
Context {str : Strings} {dec : Mapstructure} {net : Net}.

(** When the scopes of a cluster do not decode, the comparator answers
    false with the cluster on either side. *)
Lemma less_undecodable ip hostname conditions cluster other :
  Decode (model.Scopes cluster) = None ->
  less ip hostname conditions cluster other = false /\
  less ip hostname conditions other cluster = false.
Proof.
  intros Hd. unfold less. rewrite Hd.
  split; [reflexivity|]. destruct (Decode (model.Scopes other)); reflexivity.
Qed.

Lemma less_scores ip hostname conditions ci cj xi xj :
  scoreOf ip hostname conditions ci = Some xi ->
  scoreOf ip hostname conditions cj = Some xj ->
  less ip hostname conditions ci cj = F64.gtb xi xj /\
  F64.nonneg_finite xi = true /\ F64.nonneg_finite xj = true.
Proof.
  unfold scoreOf, less.
  destruct (Decode (model.Scopes ci)) as [si|]; [|discriminate].
  destruct (Decode (model.Scopes cj)) as [sj|]; [|discriminate].
  intros [= <-] [= <-]. auto using Evaluate_nonneg.
Qed.

Lemma decodable_score ip hostname conditions cluster :
  Decode (model.Scopes cluster) <> None ->
  exists x, scoreOf ip hostname conditions cluster = Some x.
Proof.
  unfold scoreOf. destruct (Decode _); [eauto | contradiction].
Qed.

(** On clusters whose scopes decode the comparator is a strict weak
    ordering: it compares their scores. *)
Lemma less_strict_weak ip hostname conditions data :
  (forall c, In c data -> Decode (model.Scopes c) <> None) ->
  strict_weak_on (less ip hostname conditions) data.
Proof.
  intros Hdec.
  assert (Hs : forall c, In c data -> exists x, scoreOf ip hostname conditions c = Some x)
    by (intros c Hc; apply decodable_score; auto).
  repeat split.
  - intros a Ha. destruct (Hs a Ha) as [x Hx].
    destruct (less_scores _ _ _ _ _ _ _ Hx Hx) as (-> & Hn & _).
    now apply gtb_irrefl.
  - intros a b c Ha Hb Hc.
    destruct (Hs a Ha) as [x Hx], (Hs b Hb) as [y Hy], (Hs c Hc) as [z Hz].
    destruct (less_scores _ _ _ _ _ _ _ Hx Hy) as (-> & Hnx & Hny).
    destruct (less_scores _ _ _ _ _ _ _ Hy Hz) as (-> & _ & Hnz).
    destruct (less_scores _ _ _ _ _ _ _ Hx Hz) as (-> & _ & _).
    now apply gtb_trans.
  - intros a b c Ha Hb Hc.
    destruct (Hs a Ha) as [x Hx], (Hs b Hb) as [y Hy], (Hs c Hc) as [z Hz].
    destruct (less_scores _ _ _ _ _ _ _ Hx Hy) as (-> & Hnx & Hny).
    destruct (less_scores _ _ _ _ _ _ _ Hy Hz) as (-> & _ & Hnz).
    destruct (less_scores _ _ _ _ _ _ _ Hx Hz) as (-> & _ & _).
    now apply gtb_neg_trans.
Qed.

Lemma StronglySorted_lookup {A} (R : A -> A -> Prop) (xs : list A) :
  StronglySorted R xs ->
  forall (i j : nat) a b, (i < j)%nat -> xs !! i = Some a -> xs !! j = Some b -> R a b.
Proof.
  induction 1 as [|x xs Hs IH Hall]; intros i j a b Hij Hi Hj.
  - destruct i; discriminate.
  - destruct j as [|j]; [lia|]. simpl in Hj.
    destruct i as [|i]; simpl in Hi.
    + injection Hi as <-. rewrite List.Forall_forall in Hall. apply Hall.
      apply list_elem_of_In. eapply list_elem_of_lookup_2. exact Hj.
    + apply (IH i j); [lia | assumption | assumption].
Qed.

(** A list that no comparison puts out of order is ordered by score. *)
Lemma sorted_orderedByScore ip hostname conditions clusters :
  StronglySorted (not_after (less ip hostname conditions)) clusters ->
  orderedByScore ip hostname conditions clusters.
Proof.
  intros Hs i j ci cj xi xj Hij Hi Hj Hxi Hxj.
  pose proof (StronglySorted_lookup _ _ Hs i j ci cj Hij Hi Hj) as Hn.
  unfold not_after in Hn.
  destruct (less_scores _ _ _ _ _ _ _ Hxj Hxi) as (Hl & Hnj & Hni).
  rewrite Hl in Hn. rewrite leb_not_gtb by assumption. now rewrite Hn.
Qed.

End Ranking.

Section Find.
Context {str : Strings} {dec : Mapstructure} {net : Net} {srt : Sort}.

Lemma len_nonpositive {A} (xs : list A) : (len xs <=? 0) = true <-> xs = [].
Proof.
  unfold len. destruct xs; simpl; split; intros; try reflexivity; discriminate.
Qed.

Lemma Find_cases schedulerClusters ip hostname conditions :
  (schedulerClusters = [] /\
   FindSchedulerClusters schedulerClusters ip hostname conditions
     = Err ErrEmptySchedulerClusters) \/
  (schedulerClusters <> [] /\
   FilterSchedulerClusters conditions schedulerClusters = [] /\
   FindSchedulerClusters schedulerClusters ip hostname conditions
     = Err (ErrNoMatch conditions)) \/
  (schedulerClusters <> [] /\
   FilterSchedulerClusters conditions schedulerClusters <> [] /\
   FindSchedulerClusters schedulerClusters ip hostname conditions
     = Ok (sortSlice (less ip hostname conditions)
             (FilterSchedulerClusters conditions schedulerClusters))).
Proof.
  unfold FindSchedulerClusters.
  destruct (len schedulerClusters <=? 0) eqn:E1.
  - left. apply len_nonpositive in E1. auto.
  - right.
    assert (H1 : schedulerClusters <> [])
      by (intros E; apply len_nonpositive in E; congruence).
    cbv zeta.
    destruct (len (FilterSchedulerClusters conditions schedulerClusters) =? 0) eqn:E2.
    + left. apply len_zero in E2. auto.
    + right. repeat split; try assumption.
      intros E. apply len_zero in E. congruence.
Qed.

End Find.

Section FindSorted.
Context {str : Strings} {dec : Mapstructure} {net : Net} {srt : Sort} {spec : SortSpec}.

(** C3. When the list of candidates and the result of the filter are not
    empty, [FindSchedulerClusters] returns a permutation of the filtered
    clusters. If the scopes of every filtered cluster decode, the result
    is ordered by score: no cluster comes after one of a strictly lower
    score. A cluster whose scopes do not decode is still in the result,
    and the comparator answers false with it on either side. *)
Theorem find_sorts_decodable schedulerClusters ip hostname conditions :
  schedulerClusters <> [] ->
  FilterSchedulerClusters conditions schedulerClusters <> [] ->
  exists clusters,
    FindSchedulerClusters schedulerClusters ip hostname conditions = Ok clusters /\
    Permutation clusters (FilterSchedulerClusters conditions schedulerClusters) /\
    ((forall c, In c (FilterSchedulerClusters conditions schedulerClusters) ->
                Decode (model.Scopes c) <> None) ->
     orderedByScore ip hostname conditions clusters) /\
    (forall c, In c (FilterSchedulerClusters conditions schedulerClusters) ->
               Decode (model.Scopes c) = None ->
               In c clusters /\
               forall other,
                 less ip hostname conditions c other = false /\
                 less ip hostname conditions other c = false).
Proof.
  intros Hne Hf.
  destruct (Find_cases schedulerClusters ip hostname conditions)
    as [(He & _)|[(_ & Hf' & _)|(_ & _ & Hfind)]]; try contradiction.
  eexists. split; [exact Hfind|]. split; [apply sortSlice_perm|]. split.
  - intros Hdec. apply sorted_orderedByScore, sortSlice_sorted.
    now apply less_strict_weak.
  - intros c Hc Hd. split.
    + eapply Permutation_in; [symmetry; apply sortSlice_perm | assumption].
    + intros other. now apply less_undecodable.
Qed.

(** C4. [FindSchedulerClusters] returns the error of the empty input, and
    no list, exactly when the list of candidates is empty; it returns the
    no-match error, which holds the conditions, exactly when the list is
    not empty and the filter leaves nothing, and it returns no other
    error. In every other case, and only then, it returns a list and no
    error: a permutation of the filtered clusters, which is ordered by
    score when the scopes of every filtered cluster decode. *)
Theorem find_outcomes schedulerClusters ip hostname conditions :
  (FindSchedulerClusters schedulerClusters ip hostname conditions
     = Err ErrEmptySchedulerClusters <-> schedulerClusters = []) /\
  (FindSchedulerClusters schedulerClusters ip hostname conditions
     = Err (ErrNoMatch conditions) <->
   schedulerClusters <> [] /\
   FilterSchedulerClusters conditions schedulerClusters = []) /\
  (forall err,
     FindSchedulerClusters schedulerClusters ip hostname conditions = Err err ->
     err = ErrEmptySchedulerClusters \/ err = ErrNoMatch conditions) /\
  (forall clusters,
     FindSchedulerClusters schedulerClusters ip hostname conditions = Ok clusters ->
     schedulerClusters <> [] /\
     FilterSchedulerClusters conditions schedulerClusters <> []) /\
  (schedulerClusters <> [] ->
   FilterSchedulerClusters conditions schedulerClusters <> [] ->
   exists clusters,
     FindSchedulerClusters schedulerClusters ip hostname conditions = Ok clusters /\
     Permutation clusters (FilterSchedulerClusters conditions schedulerClusters) /\
     ((forall c, In c (FilterSchedulerClusters conditions schedulerClusters) ->
                 Decode (model.Scopes c) <> None) ->
      orderedByScore ip hostname conditions clusters)).
Proof.
  destruct (Find_cases schedulerClusters ip hostname conditions)
    as [(He & Hfind)|[(Hne & Hf & Hfind)|(Hne & Hf & Hfind)]]; rewrite Hfind.
  - split; [tauto|]. split; [split; [discriminate | tauto]|].
    split; [intros err [= <-]; now left|].
    split; [discriminate | contradiction].
  - split; [split; [discriminate | contradiction]|]. split; [tauto|].
    split; [intros err [= <-]; now right|].
    split; [discriminate | contradiction].
  - split; [split; [discriminate | contradiction]|].
    split; [split; [discriminate | intros [_ Hc]; contradiction]|].
    split; [discriminate|]. split; [auto|].
    intros _ _. eexists. split; [reflexivity|].
    split; [apply sortSlice_perm|].
    intros Hdec. apply sorted_orderedByScore, sortSlice_sorted.
    now apply less_strict_weak.
Qed.

(** C9. A cluster without active servers is never in the result of the
    filter, whatever the candidates and the conditions, and so never in
    the list [FindSchedulerClusters] returns. *)
Theorem idle_cluster_never_returned conditions schedulerClusters cluster :
  model.Schedulers cluster = [] ->
  ~ In cluster (FilterSchedulerClusters conditions schedulerClusters) /\
  forall ip hostname clusters,
    FindSchedulerClusters schedulerClusters ip hostname conditions = Ok clusters ->
    ~ In cluster clusters.
Proof.
  intros Hidle.
  assert (Hnot : ~ In cluster (FilterSchedulerClusters conditions schedulerClusters)).
  { intros Hin. apply Filter_In in Hin. destruct Hin as [_ Hs]. contradiction. }
  split; [assumption|].
  intros ip hostname clusters Hfind Hin. apply Hnot.
  destruct (Find_cases schedulerClusters ip hostname conditions)
    as [(_ & E)|[(_ & _ & E)|(_ & _ & E)]]; rewrite E in Hfind; try discriminate.
  injection Hfind as <-.
  eapply Permutation_in; [apply sortSlice_perm | exact Hin].
Qed.

End FindSorted.

Section UnparsableIP.
Context {str : Strings} {dec : Mapstructure} {net : Net} {srt : Sort}.

(** C10. When the IP of the client does not parse, the CIDR sub-score is
    0.0 whatever the CIDR set of the cluster, [Evaluate] is the weighted
    sum of the other four sub-scores, a float64 in [0.0, 1.0], and
    [FindSchedulerClusters] returns an error only for an empty list of
    candidates or an empty result of the filter. *)
Theorem unparsable_ip_scores_zero ip :
  ParseIP ip = None ->
  (forall cidrs, calculateCIDRAffinityScore ip cidrs = minScore) /\
  (forall hostname conditions scopes cluster,
     Evaluate ip hostname conditions scopes cluster =
     weighted
       (calculateSecurityDomainAffinityScore
          (at_key conditions ConditionSecurityDomain)
          (model.SecurityRules (model.SecurityGroup cluster)))
       minScore
       (calculateIDCAffinityScore (at_key conditions ConditionIDC) (IDC scopes))
       (calculateMultiElementAffinityScore
          (at_key conditions ConditionLocation) (Location scopes))
       (calculateClusterTypeScore cluster) /\
     F64.in_unit (Evaluate ip hostname conditions scopes cluster) = true) /\
  (forall schedulerClusters hostname conditions err,
     FindSchedulerClusters schedulerClusters ip hostname conditions = Err err ->
     schedulerClusters = [] \/
     FilterSchedulerClusters conditions schedulerClusters = []).
Proof.
  intros Hip.
  assert (Hz : forall cidrs, calculateCIDRAffinityScore ip cidrs = minScore).
  { intros cidrs. unfold calculateCIDRAffinityScore. rewrite Hip. reflexivity. }
  split; [assumption|]. split.
  - intros hostname conditions scopes cluster. split.
    + rewrite Evaluate_weighted, Hz. reflexivity.
    + apply weightedSums_in_unit, Evaluate_in_sums.
  - intros schedulerClusters hostname conditions err Hfind.
    destruct (Find_cases schedulerClusters ip hostname conditions)
      as [(E & _)|[(_ & E & _)|(_ & _ & E)]]; auto.
    rewrite E in Hfind. discriminate.
Qed.

End UnparsableIP.

(** ** The examples *)

(** The end-to-end example of the specification: for the IP 10.0.0.9 and
    the idc x, the edge cluster comes before the default cluster. *)
Example find_edge_before_default :
  FindSchedulerClusters [defaultCluster; edgeCluster] "10.0.0.9" "host" idcX
  = Ok [edgeCluster; defaultCluster].
Proof. vm_compute. reflexivity. Qed.

(** The filter on the examples of the specification: without a security
    domain every cluster with a scheduler passes; a cluster with the
    rule A, not the default, passes for the domain a and not for b. *)
Example filter_examples :
  FilterSchedulerClusters idcX [defaultCluster; idleCluster; twoRuleCluster]
    = [defaultCluster; twoRuleCluster] /\
  (let ruleA := {| model.Name := "guarded"; model.Scopes := ∅;
                   model.IsDefault := false; model.Schedulers := oneScheduler;
                   model.SecurityGroup :=
                     {| model.SecurityRules := [ {| model.Domain := "A" |} ] |} |} in
   FilterSchedulerClusters {[ "security_domain" := "a" ]} [ruleA] = [ruleA] /\
   FilterSchedulerClusters {[ "security_domain" := "b" ]} [ruleA] = []).
Proof. repeat split; vm_compute; reflexivity. Qed.

(** C4, as first stated, fails: the candidates default, broken and edge
    are not empty and all pass the filter, and the list the search
    returns for them is not ordered by score. *)
Lemma find_success_unordered :
  [defaultCluster; brokenCluster; edgeCluster] <> [] /\
  FilterSchedulerClusters idcX [defaultCluster; brokenCluster; edgeCluster] <> [] /\
  ~ (exists clusters,
       FindSchedulerClusters [defaultCluster; brokenCluster; edgeCluster]
         "10.0.0.9" "host" idcX = Ok clusters /\
       orderedByScore "10.0.0.9" "host" idcX clusters).
Proof.
  split; [discriminate|]. split; [vm_compute; discriminate|].
  intros (clusters & Hfind & Hord).
  assert (Hres : FindSchedulerClusters [defaultCluster; brokenCluster; edgeCluster]
                   "10.0.0.9" "host" idcX
                 = Ok [defaultCluster; brokenCluster; edgeCluster])
    by (vm_compute; reflexivity).
  rewrite Hres in Hfind. injection Hfind as <-.
  specialize (Hord 0%nat 2%nat defaultCluster edgeCluster
                (S754_finite false 7205759403792794 (-57))
                (S754_finite false 8106479329266892 (-54))).
  assert (Hleb : F64.leb (S754_finite false 8106479329266892 (-54))
                         (S754_finite false 7205759403792794 (-57)) = true).
  { apply Hord; [lia | reflexivity | reflexivity | |]; vm_compute; reflexivity. }
  vm_compute in Hleb. discriminate.
Qed.

Lemma find_outcomes_witness :
  exists clusters,
    FindSchedulerClusters [defaultCluster; idleCluster; edgeCluster]
      "10.0.0.9" "host" idcX = Ok clusters /\
    Permutation clusters
      (FilterSchedulerClusters idcX [defaultCluster; idleCluster; edgeCluster]) /\
    ((forall c, In c (FilterSchedulerClusters idcX
                        [defaultCluster; idleCluster; edgeCluster]) ->
                Decode (model.Scopes c) <> None) ->
     orderedByScore "10.0.0.9" "host" idcX clusters).
Proof.
  apply (find_outcomes (spec := InsertionSort_spec)
           [defaultCluster; idleCluster; edgeCluster] "10.0.0.9" "host" idcX).
  - discriminate.
  - vm_compute. discriminate.
Defined.

(** C3, as first stated, fails: of the candidates default, broken and
    edge, which all pass the filter, the scopes of broken do not decode,
    and the result is default, broken, edge, though the score of edge is
    strictly higher than the score of default. *)
Lemma find_unordered_next_to_undecodable :
  ~ (forall clusters,
       FindSchedulerClusters [defaultCluster; brokenCluster; edgeCluster]
         "10.0.0.9" "host" idcX = Ok clusters ->
       Permutation clusters
         (FilterSchedulerClusters idcX [defaultCluster; brokenCluster; edgeCluster]) /\
       orderedByScore "10.0.0.9" "host" idcX clusters).
Proof.
  intros Hclaim.
  destruct (Hclaim [defaultCluster; brokenCluster; edgeCluster]) as [_ Hord].
  { vm_compute. reflexivity. }
  specialize (Hord 0%nat 2%nat defaultCluster edgeCluster
                (S754_finite false 7205759403792794 (-57))
                (S754_finite false 8106479329266892 (-54))).
  assert (Hleb : F64.leb (S754_finite false 8106479329266892 (-54))
                         (S754_finite false 7205759403792794 (-57)) = true).
  { apply Hord; [lia | reflexivity | reflexivity | |]; vm_compute; reflexivity. }
  vm_compute in Hleb. discriminate.
Qed.

Lemma find_sorts_decodable_witness :
  exists clusters,
    FindSchedulerClusters [defaultCluster; edgeCluster] "10.0.0.9" "host" idcX
      = Ok clusters /\
    Permutation clusters (FilterSchedulerClusters idcX [defaultCluster; edgeCluster]) /\
    ((forall c, In c (FilterSchedulerClusters idcX [defaultCluster; edgeCluster]) ->
                Decode (model.Scopes c) <> None) ->
     orderedByScore "10.0.0.9" "host" idcX clusters) /\
    (forall c, In c (FilterSchedulerClusters idcX [defaultCluster; edgeCluster]) ->
               Decode (model.Scopes c) = None ->
               In c clusters /\
               forall other,
                 less "10.0.0.9" "host" idcX c other = false /\
                 less "10.0.0.9" "host" idcX other c = false).
Proof.
  apply (find_sorts_decodable (spec := InsertionSort_spec)
           [defaultCluster; edgeCluster] "10.0.0.9" "host" idcX).
  - discriminate.
  - vm_compute. discriminate.
Defined.

Lemma idle_cluster_never_returned_witness :
  model.Schedulers idleCluster = [] /\
  ~ In idleCluster (FilterSchedulerClusters idcX [idleCluster; edgeCluster]).
Proof.
  split; [reflexivity|].
  apply (idle_cluster_never_returned (spec := InsertionSort_spec)
           idcX [idleCluster; edgeCluster] idleCluster).
  reflexivity.
Defined.

Lemma unparsable_ip_scores_zero_witness :
  ParseIP "not-an-ip" = None /\
  calculateCIDRAffinityScore "not-an-ip" ["10.0.0.0/24"] = minScore.
Proof.
  split; [reflexivity|].
  apply (unparsable_ip_scores_zero (str := AsciiStrings) (dec := ScopesDecoder)
           (srt := InsertionSort) "not-an-ip").
  reflexivity.
Defined.

(** * Further properties of the code *)

(** ** The filter, cluster by cluster *)

Section FilterShape.
Context {str : Strings}.

Lemma filterStep_copies securityDomain cluster :
  filterStep securityDomain [] cluster =
  repeat cluster (copies securityDomain cluster).
Proof.
  unfold filterStep, copies. rewrite appendMatches_repeat.
  repeat match goal with
         | |- context [if ?b then _ else _] => destruct b
         end; reflexivity.
Qed.

(** The filter decides each candidate on its own and keeps the order of
    the candidates: its result is, candidate after candidate, as many
    copies of the candidate as [copies] says, which is none without a
    scheduler, one when the client declares no security domain, when the
    cluster is the default or when it has no rule, and otherwise the
    number of its rules that match the domain. *)
Theorem Filter_copies conditions schedulerClusters :
  FilterSchedulerClusters conditions schedulerClusters =
  flat_map (fun cluster =>
              repeat cluster (copies (at_key conditions ConditionSecurityDomain) cluster))
    schedulerClusters.
Proof.
  rewrite Filter_flat_map.
  induction schedulerClusters as [|c cs IH]; simpl; [reflexivity|].
  now rewrite filterStep_copies, IH.
Qed.

(** Filtering two lists of candidates one after the other is filtering
    them separately. *)
Theorem Filter_app conditions candidates1 candidates2 :
  FilterSchedulerClusters conditions (candidates1 ++ candidates2) =
  FilterSchedulerClusters conditions candidates1 ++
  FilterSchedulerClusters conditions candidates2.
Proof.
  unfold FilterSchedulerClusters. cbv zeta.
  rewrite fold_left_app.
  generalize (at_key conditions ConditionSecurityDomain) as securityDomain.
  intros securityDomain.
  generalize (fold_left (filterStep securityDomain) candidates1 []) as kept.
  induction candidates2 as [|c cs IH] using rev_ind; intros kept; simpl.
  - now rewrite app_nil_r.
  - rewrite !fold_left_app. simpl.
    rewrite filterStep_app, (filterStep_app _ (fold_left _ cs [])), IH.
    now rewrite app_assoc.
Qed.

(** When the client declares no security domain (the key is missing or
    its value is empty), the filter keeps exactly the clusters with a
    scheduler, once each and in their order. *)
Theorem Filter_no_domain conditions schedulerClusters :
  at_key conditions ConditionSecurityDomain = "" ->
  FilterSchedulerClusters conditions schedulerClusters =
  List.filter hasScheduler schedulerClusters.
Proof.
  intros Hd. rewrite Filter_flat_map, Hd.
  induction schedulerClusters as [|c cs IH]; simpl; [reflexivity|].
  rewrite IH, filterStep_copies. unfold copies, hasScheduler.
  destruct (len (model.Schedulers c) =? 0); reflexivity.
Qed.

Lemma matching_exists securityDomain cluster :
  existsb (fun rule => EqualFold (model.Domain rule) securityDomain)
    (model.SecurityRules (model.SecurityGroup cluster)) =
  negb (Nat.eqb (length (matchingRules securityDomain cluster)) 0).
Proof.
  unfold matchingRules.
  induction (model.SecurityRules (model.SecurityGroup cluster)) as [|r rs IH];
    simpl; [reflexivity|].
  destruct (EqualFold _ _); simpl; [reflexivity | exact IH].
Qed.

Lemma copies_eligible securityDomain cluster :
  (length (matchingRules securityDomain cluster) <= 1)%nat ->
  repeat cluster (copies securityDomain cluster) =
  if eligible securityDomain cluster then [cluster] else [].
Proof.
  intros Hone. unfold copies, eligible.
  rewrite matching_exists.
  destruct (len (model.Schedulers cluster) =? 0); [reflexivity|].
  destruct (String.eqb securityDomain ""); [reflexivity|].
  destruct (model.IsDefault cluster); [reflexivity|].
  destruct (len (model.SecurityRules _) =? 0); [reflexivity|].
  destruct (length (matchingRules securityDomain cluster)) as [|[|n]];
    simpl; [reflexivity | reflexivity | lia].
Qed.

Lemma steps_select securityDomain schedulerClusters :
  (forall cluster, In cluster schedulerClusters ->
     (length (matchingRules securityDomain cluster) <= 1)%nat) ->
  flat_map (filterStep securityDomain []) schedulerClusters =
  List.filter (eligible securityDomain) schedulerClusters.
Proof.
  intros Hone.
  induction schedulerClusters as [|c cs IH]; simpl; [reflexivity|].
  rewrite IH by (intros c' Hc'; apply Hone; now right).
  rewrite filterStep_copies, copies_eligible by (apply Hone; now left).
  destruct (eligible _ c); reflexivity.
Qed.

Lemma filter_twice {A} (f : A -> bool) (xs : list A) :
  List.filter f (List.filter f xs) = List.filter f xs.
Proof.
  induction xs as [|x xs IH]; simpl; [reflexivity|].
  destruct (f x) eqn:E; simpl; [rewrite E, IH; reflexivity | exact IH].
Qed.

(** When no candidate has two rules that match the security domain of
    the client, the filter selects among the candidates: it keeps the
    eligible ones, once each and in their order. *)
Theorem Filter_single_match conditions schedulerClusters :
  (forall cluster, In cluster schedulerClusters ->
     (length (matchingRules (at_key conditions ConditionSecurityDomain) cluster) <= 1)%nat) ->
  FilterSchedulerClusters conditions schedulerClusters =
  List.filter (eligible (at_key conditions ConditionSecurityDomain)) schedulerClusters.
Proof.
  intros Hone. rewrite Filter_flat_map. now apply steps_select.
Qed.

(** Under the same condition the filter changes nothing in its own
    result. *)
Theorem Filter_idempotent conditions schedulerClusters :
  (forall cluster, In cluster schedulerClusters ->
     (length (matchingRules (at_key conditions ConditionSecurityDomain) cluster) <= 1)%nat) ->
  FilterSchedulerClusters conditions
    (FilterSchedulerClusters conditions schedulerClusters) =
  FilterSchedulerClusters conditions schedulerClusters.
Proof.
  intros Hone.
  rewrite (Filter_flat_map conditions schedulerClusters).
  rewrite (steps_select _ _ Hone).
  rewrite Filter_flat_map, steps_select.
  - apply filter_twice.
  - intros c Hc. apply filter_In in Hc. apply Hone, Hc.
Qed.

End FilterShape.

Lemma Filter_no_domain_witness :
  FilterSchedulerClusters idcX [idleCluster; edgeCluster; twoRuleCluster] =
  List.filter hasScheduler [idleCluster; edgeCluster; twoRuleCluster].
Proof.
  apply (Filter_no_domain (str := AsciiStrings) idcX). reflexivity.
Defined.

Lemma Filter_single_match_witness :
  FilterSchedulerClusters domainA [idleCluster; edgeCluster; defaultCluster] =
  List.filter (eligible (at_key domainA ConditionSecurityDomain))
    [idleCluster; edgeCluster; defaultCluster].
Proof.
  apply (Filter_single_match (str := AsciiStrings) domainA).
  intros cluster [<-|[<-|[<-|[]]]]; vm_compute; lia.
Defined.

Lemma Filter_idempotent_witness :
  FilterSchedulerClusters domainA
    (FilterSchedulerClusters domainA [idleCluster; edgeCluster; defaultCluster]) =
  FilterSchedulerClusters domainA [idleCluster; edgeCluster; defaultCluster].
Proof.
  apply (Filter_idempotent (str := AsciiStrings) domainA).
  intros cluster [<-|[<-|[<-|[]]]]; vm_compute; lia.
Defined.

(** ** The comparator *)

Section Comparator.
Context {str : Strings} {dec : Mapstructure} {net : Net}.

(** The comparator is a strict partial order on all clusters, whether
    their scopes decode or not: no cluster is less than itself, two
    clusters are never less than each other, and less is transitive. *)
Theorem less_strict_partial_order ip hostname conditions a b c :
  less ip hostname conditions a a = false /\
  (less ip hostname conditions a b = true ->
   less ip hostname conditions b a = false) /\
  (less ip hostname conditions a b = true ->
   less ip hostname conditions b c = true ->
   less ip hostname conditions a c = true).
Proof.
  unfold less.
  destruct (Decode (model.Scopes a)) as [sa|]; [|repeat split; discriminate].
  pose proof (Evaluate_nonneg ip hostname conditions sa a) as Ha.
  split; [now apply gtb_irrefl|].
  destruct (Decode (model.Scopes b)) as [sb|]; [|split; discriminate].
  pose proof (Evaluate_nonneg ip hostname conditions sb b) as Hb.
  split.
  - intros Hab.
    destruct (F64.gtb (Evaluate ip hostname conditions sb b)
                      (Evaluate ip hostname conditions sa a)) eqn:Hba; [|reflexivity].
    rewrite <- (gtb_irrefl _ Ha). symmetry.
    now apply (gtb_trans _ (Evaluate ip hostname conditions sb b)).
  - destruct (Decode (model.Scopes c)) as [sc|]; [|discriminate].
    pose proof (Evaluate_nonneg ip hostname conditions sc c) as Hc.
    now apply gtb_trans.
Qed.

(** A cluster whose scopes do not decode breaks what [sort.Slice] asks of
    its comparator: next to two clusters one of which is less than the
    other, it is equivalent to both, and the comparator is no strict weak
    ordering of the three. *)
Theorem less_not_weak_with_undecodable ip hostname conditions a u c :
  Decode (model.Scopes u) = None ->
  less ip hostname conditions a c = true ->
  less ip hostname conditions a u = false /\
  less ip hostname conditions u c = false /\
  ~ strict_weak_on (less ip hostname conditions) [a; u; c].
Proof.
  intros Hu Hac.
  destruct (less_undecodable ip hostname conditions u a Hu) as [_ Hau].
  destruct (less_undecodable ip hostname conditions u c Hu) as [Huc _].
  repeat split; try assumption.
  intros (_ & _ & Hneg).
  specialize (Hneg a u c). simpl in Hneg.
  rewrite Hneg in Hac; auto 6. discriminate.
Qed.

End Comparator.

Lemma less_strict_partial_order_witness :
  less "10.0.0.9" "host" idcX defaultCluster edgeCluster = false.
Proof.
  apply (proj1 (proj2 (less_strict_partial_order (str := AsciiStrings) (net := NetV4)
                         "10.0.0.9" "host" idcX edgeCluster defaultCluster brokenCluster))).
  vm_compute. reflexivity.
Defined.

Lemma less_not_weak_with_undecodable_witness :
  less "10.0.0.9" "host" idcX edgeCluster brokenCluster = false /\
  less "10.0.0.9" "host" idcX brokenCluster defaultCluster = false /\
  ~ strict_weak_on (less "10.0.0.9" "host" idcX)
      [edgeCluster; brokenCluster; defaultCluster].
Proof.
  apply (less_not_weak_with_undecodable (str := AsciiStrings) (net := NetV4)
           "10.0.0.9" "host" idcX edgeCluster brokenCluster defaultCluster).
  - reflexivity.
  - vm_compute. reflexivity.
Defined.

(** ** What the search returns *)

Section FindResult.
Context {str : Strings} {dec : Mapstructure} {net : Net} {srt : Sort} {spec : SortSpec}.

(** A default cluster with a scheduler among the candidates makes the
    search succeed, whatever the conditions, and is in the result. *)
Theorem Find_default_succeeds schedulerClusters ip hostname conditions cluster :
  In cluster schedulerClusters ->
  model.IsDefault cluster = true ->
  model.Schedulers cluster <> [] ->
  exists clusters,
    FindSchedulerClusters schedulerClusters ip hostname conditions = Ok clusters /\
    In cluster clusters.
Proof.
  intros Hin Hdef Hs.
  assert (Hkept : In cluster (FilterSchedulerClusters conditions schedulerClusters)).
  { rewrite Filter_flat_map. apply in_flat_map. exists cluster. split; [assumption|].
    rewrite filterStep_copies. unfold copies. rewrite Hdef.
    destruct (len (model.Schedulers cluster) =? 0) eqn:E;
      [apply len_zero in E; contradiction|].
    destruct (String.eqb _ _); now left. }
  destruct (Find_cases schedulerClusters ip hostname conditions)
    as [(E & _)|[(_ & E & _)|(_ & _ & E)]].
  - subst. destruct Hin.
  - rewrite E in Hkept. destruct Hkept.
  - eexists. split; [exact E|].
    eapply Permutation_in; [symmetry; apply sortSlice_perm | assumption].
Qed.

(** A list the search returns is never empty, is as long as the result of
    the filter, and holds only candidates. *)
Theorem Find_result_sound schedulerClusters ip hostname conditions clusters :
  FindSchedulerClusters schedulerClusters ip hostname conditions = Ok clusters ->
  clusters <> [] /\
  length clusters = length (FilterSchedulerClusters conditions schedulerClusters) /\
  forall cluster, In cluster clusters -> In cluster schedulerClusters.
Proof.
  intros Hfind.
  destruct (Find_cases schedulerClusters ip hostname conditions)
    as [(_ & E)|[(_ & _ & E)|(_ & Hne & E)]]; rewrite E in Hfind; try discriminate.
  injection Hfind as <-.
  pose proof (sortSlice_perm _ (less ip hostname conditions)
                (FilterSchedulerClusters conditions schedulerClusters)) as Hperm.
  repeat split.
  - intros Hnil. rewrite Hnil in Hperm. apply Permutation_nil in Hperm. contradiction.
  - now apply Permutation_length.
  - intros cluster Hin. apply (Permutation_in _ Hperm) in Hin.
    now apply Filter_In in Hin.
Qed.

(** When the scopes of all filtered clusters decode, the first cluster of
    the result is a best match: no filtered cluster has a higher score. *)
Theorem Find_best_first schedulerClusters ip hostname conditions best rest :
  (forall c, In c (FilterSchedulerClusters conditions schedulerClusters) ->
             Decode (model.Scopes c) <> None) ->
  FindSchedulerClusters schedulerClusters ip hostname conditions = Ok (best :: rest) ->
  exists bestScore,
    scoreOf ip hostname conditions best = Some bestScore /\
    forall c, In c (FilterSchedulerClusters conditions schedulerClusters) ->
      exists score,
        scoreOf ip hostname conditions c = Some score /\
        F64.leb score bestScore = true.
Proof.
  intros Hdec Hfind.
  destruct (Find_cases schedulerClusters ip hostname conditions)
    as [(_ & E)|[(_ & _ & E)|(_ & Hne & E)]]; rewrite E in Hfind; try discriminate.
  injection Hfind as Hsorted.
  pose proof (sortSlice_perm _ (less ip hostname conditions)
                (FilterSchedulerClusters conditions schedulerClusters)) as Hperm.
  pose proof (sortSlice_sorted _ (less ip hostname conditions) _
                (less_strict_weak ip hostname conditions _ Hdec)) as Hs.
  rewrite Hsorted in Hperm, Hs.
  assert (Hbest : In best (FilterSchedulerClusters conditions schedulerClusters))
    by (apply (Permutation_in _ Hperm); now left).
  destruct (decodable_score ip hostname conditions best (Hdec _ Hbest)) as [xb Hxb].
  exists xb. split; [assumption|].
  intros c Hc.
  destruct (decodable_score ip hostname conditions c (Hdec _ Hc)) as [x Hx].
  exists x. split; [assumption|].
  destruct (less_scores _ _ _ _ _ _ _ Hx Hxb) as (Hl & Hnx & Hnb).
  rewrite leb_not_gtb by assumption.
  apply (Permutation_in _ (Permutation_sym Hperm)) in Hc.
  destruct Hc as [<-|Hc].
  - assert (x = xb) by congruence. subst x. now rewrite gtb_irrefl.
  - rewrite <- Hl. apply StronglySorted_inv in Hs. destruct Hs as [_ Hall].
    rewrite List.Forall_forall in Hall. specialize (Hall c Hc).
    unfold not_after in Hall. now rewrite Hall.
Qed.

End FindResult.

Lemma Find_default_succeeds_witness :
  exists clusters,
    FindSchedulerClusters [twoRuleCluster; defaultCluster] "10.0.0.9" "host"
      {[ "security_domain" := "b" ]} = Ok clusters /\
    In defaultCluster clusters.
Proof.
  apply (Find_default_succeeds (spec := InsertionSort_spec)).
  - right. now left.
  - reflexivity.
  - discriminate.
Defined.

Lemma Find_result_sound_witness :
  [edgeCluster; defaultCluster] <> [] /\
  length [edgeCluster; defaultCluster] =
    length (FilterSchedulerClusters idcX [defaultCluster; idleCluster; edgeCluster]) /\
  forall cluster, In cluster [edgeCluster; defaultCluster] ->
    In cluster [defaultCluster; idleCluster; edgeCluster].
Proof.
  apply (Find_result_sound (spec := InsertionSort_spec)
           [defaultCluster; idleCluster; edgeCluster] "10.0.0.9" "host" idcX).
  vm_compute. reflexivity.
Defined.

Lemma Find_best_first_witness :
  exists bestScore,
    scoreOf "10.0.0.9" "host" idcX edgeCluster = Some bestScore /\
    forall c, In c (FilterSchedulerClusters idcX [defaultCluster; idleCluster; edgeCluster]) ->
      exists score,
        scoreOf "10.0.0.9" "host" idcX c = Some score /\
        F64.leb score bestScore = true.
Proof.
  apply (Find_best_first (spec := InsertionSort_spec)
           [defaultCluster; idleCluster; edgeCluster] "10.0.0.9" "host" idcX
           edgeCluster [defaultCluster]).
  - intros c Hc.
    change (In c [defaultCluster; edgeCluster]) in Hc.
    destruct Hc as [<-|[<-|[]]]; vm_compute; discriminate.
  - vm_compute. reflexivity.
Defined.

(** ** The weighted sum *)

Section WeightedSum.
Context {str : Strings} {net : Net}.

Lemma same_eq x y : same x y = true <-> x = y.
Proof.
  destruct x as [a|a| |a m e], y as [b|b| |b n f]; simpl;
    try (split; [discriminate | intros [=]]); try tauto.
  - rewrite Bool.eqb_true_iff. split; [now intros -> | now intros [= ->]].
  - rewrite Bool.eqb_true_iff. split; [now intros -> | now intros [= ->]].
  - rewrite !andb_true_iff, Bool.eqb_true_iff, Pos.eqb_eq, Z.eqb_eq.
    split; [now intros [[-> ->] ->] | now intros [= -> -> ->]].
Qed.

Lemma subScoresOf_admissible ip conditions scopes cluster :
  In (subScoresOf ip conditions scopes cluster) allSubScores.
Proof.
  unfold subScoresOf, allSubScores.
  apply in_flat_map; eexists; split; [apply securityDomain_values|].
  apply in_flat_map; eexists; split; [apply cidr_values|].
  apply in_flat_map; eexists; split; [apply idc_values|].
  apply in_flat_map; eexists; split; [apply location_values|].
  apply in_map, clusterType_values.
Qed.

(** Every sub-score is 0.0 or 1.0, except the location sub-score, which
    is k/5.0 for a whole k from 0 to 5. *)
Theorem sub_scores_discrete :
  (forall securityDomain securityRules,
     calculateSecurityDomainAffinityScore securityDomain securityRules = minScore \/
     calculateSecurityDomainAffinityScore securityDomain securityRules = maxScore) /\
  (forall ip cidrs,
     calculateCIDRAffinityScore ip cidrs = minScore \/
     calculateCIDRAffinityScore ip cidrs = maxScore) /\
  (forall dst src,
     calculateIDCAffinityScore dst src = minScore \/
     calculateIDCAffinityScore dst src = maxScore) /\
  (forall dst src, exists k,
     0 <= k <= 5 /\
     calculateMultiElementAffinityScore dst src
       = F64.div (F64.of_int k) (F64.of_int maxElementLen)) /\
  (forall cluster,
     calculateClusterTypeScore cluster = minScore \/
     calculateClusterTypeScore cluster = maxScore).
Proof.
  assert (Hunit : forall x, In x unitScores -> x = minScore \/ x = maxScore).
  { intros x [<-|[<-|[]]]; auto. }
  repeat split; intros.
  - apply Hunit, securityDomain_values.
  - apply Hunit, cidr_values.
  - apply Hunit, idc_values.
  - pose proof (location_values dst src) as Hin.
    unfold locationScores in Hin. apply in_map_iff in Hin.
    destruct Hin as (k & <- & Hk). exists k. split; [|reflexivity].
    simpl in Hk. lia.
  - apply Hunit, clusterType_values.
Qed.

(** The score is 1.0 only when all five sub-scores are 1.0, and 0.0 only
    when all five are 0.0. *)
Theorem Evaluate_extremes ip hostname conditions scopes cluster :
  (Evaluate ip hostname conditions scopes cluster = F64.one <->
     calculateSecurityDomainAffinityScore
       (at_key conditions ConditionSecurityDomain)
       (model.SecurityRules (model.SecurityGroup cluster)) = F64.one /\
     calculateCIDRAffinityScore ip (CIDRs scopes) = F64.one /\
     calculateIDCAffinityScore (at_key conditions ConditionIDC) (IDC scopes) = F64.one /\
     calculateMultiElementAffinityScore
       (at_key conditions ConditionLocation) (Location scopes) = F64.one /\
     calculateClusterTypeScore cluster = F64.one) /\
  (Evaluate ip hostname conditions scopes cluster = F64.zero <->
     calculateSecurityDomainAffinityScore
       (at_key conditions ConditionSecurityDomain)
       (model.SecurityRules (model.SecurityGroup cluster)) = F64.zero /\
     calculateCIDRAffinityScore ip (CIDRs scopes) = F64.zero /\
     calculateIDCAffinityScore (at_key conditions ConditionIDC) (IDC scopes) = F64.zero /\
     calculateMultiElementAffinityScore
       (at_key conditions ConditionLocation) (Location scopes) = F64.zero /\
     calculateClusterTypeScore cluster = F64.zero).
Proof.
  assert (Hall : forallb (fun s =>
            Bool.eqb (same (weightedOf s) F64.one) (allEqual F64.one s) &&
            Bool.eqb (same (weightedOf s) F64.zero) (allEqual F64.zero s))
          allSubScores = true) by (vm_compute; reflexivity).
  rewrite forallb_forall in Hall.
  specialize (Hall _ (subScoresOf_admissible ip conditions scopes cluster)).
  apply andb_true_iff in Hall. destruct Hall as [Hone Hzero].
  apply Bool.eqb_prop in Hone, Hzero.
  change (Evaluate ip hostname conditions scopes cluster)
    with (weightedOf (subScoresOf ip conditions scopes cluster)).
  rewrite <- !same_eq, Hone, Hzero. unfold allEqual. simpl.
  rewrite !andb_true_iff. tauto.
Qed.

(** The score is monotone in the sub-scores: when each sub-score of one
    evaluation is at most the one of another, so is the score, and the
    score is strictly higher as soon as one sub-score is. *)
Theorem Evaluate_monotone ip hostname conditions scopes cluster
  ip' hostname' conditions' scopes' cluster' :
  subScores_le (subScoresOf ip conditions scopes cluster)
               (subScoresOf ip' conditions' scopes' cluster') = true ->
  F64.leb (Evaluate ip hostname conditions scopes cluster)
          (Evaluate ip' hostname' conditions' scopes' cluster') = true /\
  (subScores_gt (subScoresOf ip' conditions' scopes' cluster')
                (subScoresOf ip conditions scopes cluster) = true ->
   F64.gtb (Evaluate ip' hostname' conditions' scopes' cluster')
           (Evaluate ip hostname conditions scopes cluster) = true).
Proof.
  assert (Hall : forallb (fun s => forallb (fun t =>
            implb (subScores_le s t)
              (F64.leb (weightedOf s) (weightedOf t) &&
               implb (subScores_gt t s) (F64.gtb (weightedOf t) (weightedOf s))))
            allSubScores) allSubScores = true) by (vm_compute; reflexivity).
  rewrite forallb_forall in Hall.
  specialize (Hall _ (subScoresOf_admissible ip conditions scopes cluster)).
  rewrite forallb_forall in Hall.
  specialize (Hall _ (subScoresOf_admissible ip' conditions' scopes' cluster')).
  intros Hle. rewrite Hle in Hall. simpl in Hall.
  apply andb_true_iff in Hall. destruct Hall as [Hleb Hgt].
  split; [exact Hleb|].
  intros Hsome. rewrite Hsome in Hgt. exact Hgt.
Qed.

(** For a client that declares no security domain, no idc and no location
    (the keys are missing or their values are empty), the score is decided
    by the CIDR set and the default flag alone: it is 0.3 times the CIDR
    sub-score plus 0.05 times the cluster-type sub-score. *)
Theorem Evaluate_no_conditions ip hostname conditions scopes cluster :
  at_key conditions ConditionSecurityDomain = "" ->
  at_key conditions ConditionIDC = "" ->
  at_key conditions ConditionLocation = "" ->
  Evaluate ip hostname conditions scopes cluster =
  F64.add (F64.mul cidrAffinityWeight (calculateCIDRAffinityScore ip (CIDRs scopes)))
          (F64.mul clusterTypeWeight (calculateClusterTypeScore cluster)).
Proof.
  intros Hd Hi Hl. unfold Evaluate. rewrite Hd, Hi, Hl.
  change (calculateSecurityDomainAffinityScore "" _) with minScore.
  change (calculateIDCAffinityScore "" _) with minScore.
  change (calculateMultiElementAffinityScore "" _) with minScore.
  destruct (cidr_values ip (CIDRs scopes)) as [<-|[<-|[]]];
    destruct (clusterType_values cluster) as [<-|[<-|[]]];
    vm_compute; reflexivity.
Qed.

End WeightedSum.

Lemma Evaluate_monotone_witness :
  F64.gtb
    (Evaluate "10.0.0.9" "host" idcX
       {| IDC := "x"; Location := ""; CIDRs := ["10.0.0.0/24"] |} edgeCluster)
    (Evaluate "10.0.1.9" "host" idcX
       {| IDC := "x"; Location := ""; CIDRs := ["10.0.0.0/24"] |} edgeCluster) = true.
Proof.
  apply (Evaluate_monotone (str := AsciiStrings) (net := NetV4)
           "10.0.1.9" "host" idcX
           {| IDC := "x"; Location := ""; CIDRs := ["10.0.0.0/24"] |} edgeCluster
           "10.0.0.9" "host" idcX
           {| IDC := "x"; Location := ""; CIDRs := ["10.0.0.0/24"] |} edgeCluster);
    vm_compute; reflexivity.
Defined.

Lemma Evaluate_no_conditions_witness :
  Evaluate "10.0.0.9" "host" ∅
    {| IDC := "x"; Location := "r1|z1"; CIDRs := ["10.0.0.0/24"] |} defaultCluster =
  F64.add (F64.mul cidrAffinityWeight F64.one) (F64.mul clusterTypeWeight F64.one).
Proof.
  apply (Evaluate_no_conditions (str := AsciiStrings) (net := NetV4)
           "10.0.0.9" "host" ∅
           {| IDC := "x"; Location := "r1|z1"; CIDRs := ["10.0.0.0/24"] |}
           defaultCluster); reflexivity.
Defined.

(** ** CIDR affinity and the CIDR set *)

Section CidrSet.
Context {net : Net}.

Lemma In_parseable cidrs network :
  In network (parseable cidrs) <->
  exists cidr, In cidr cidrs /\ ParseCIDR cidr = Some network.
Proof.
  unfold parseable. induction cidrs as [|c cs IH]; cbn.
  - split; [intros [] | intros (c & [] & _)].
  - destruct (ParseCIDR c) as [n|] eqn:Hc; cbn; rewrite IH; split.
    + intros [<-|(c' & Hin & Hp)]; [exists c; auto | exists c'; auto].
    + intros (c' & [<-|Hin] & Hp); [left; congruence | right; exists c'; auto].
    + intros (c' & Hin & Hp). exists c'; auto.
    + intros (c' & [<-|Hin] & Hp); [congruence | exists c'; auto].
Qed.

(** When the index refuses no network, the score is 1.0 exactly when the
    address parses and lies in an entry that parses. *)
Lemma cidr_max_iff ip cidrs :
  (forall ranger network, insertFails ranger network = false) ->
  calculateCIDRAffinityScore ip cidrs = maxScore <->
  exists addr cidr network,
    ParseIP ip = Some addr /\ In cidr cidrs /\
    ParseCIDR cidr = Some network /\ NetContains network addr = true.
Proof.
  intros Hok. rewrite cidr_refines. unfold constructRanger.
  rewrite insertCIDR_complete by assumption. simpl.
  unfold cidrAffinitySpec.
  destruct (ParseIP ip) as [addr|].
  - destruct (existsb _ _) eqn:Hex.
    + apply existsb_exists in Hex. destruct Hex as (network & Hin & Hc).
      apply In_parseable in Hin. destruct Hin as (cidr & Hin & Hp).
      split; [intros _; exists addr, cidr, network; auto | reflexivity].
    + split; [discriminate|].
      intros (addr' & cidr & network & [= <-] & Hin & Hp & Hc).
      assert (Hyes : existsb (fun n => NetContains n addr) (parseable cidrs) = true).
      { apply existsb_exists. exists network. split; [|assumption].
        apply In_parseable. exists cidr; auto. }
      congruence.
  - split; [discriminate | intros (addr & _ & _ & [=] & _)].
Qed.

Lemma cidr_two_valued ip cidrs :
  calculateCIDRAffinityScore ip cidrs <> maxScore ->
  calculateCIDRAffinityScore ip cidrs = minScore.
Proof.
  destruct (cidr_values ip cidrs) as [<-|[<-|[]]]; [reflexivity | contradiction].
Qed.

(** A CIDR set none of whose entries parses, the empty set among them,
    scores 0.0 for every client. *)
Theorem cidr_no_parseable_entry ip cidrs :
  (forall cidr, In cidr cidrs -> ParseCIDR cidr = None) ->
  calculateCIDRAffinityScore ip cidrs = minScore.
Proof.
  intros Hnone.
  assert (Hempty : constructRanger cidrs = []).
  { destruct (constructRanger cidrs) as [|network ranger] eqn:E; [reflexivity|].
    assert (Hin : In network (constructRanger cidrs)) by (rewrite E; now left).
    unfold constructRanger in Hin. apply insertCIDR_sound in Hin.
    destruct Hin as [[]|(cidr & Hc & Hp)].
    rewrite (Hnone cidr Hc) in Hp. discriminate. }
  unfold calculateCIDRAffinityScore. rewrite Hempty.
  destruct (ParseIP ip); reflexivity.
Qed.

(** When the index refuses no network, a CIDR set made of two scores 1.0
    exactly when one of the two does. *)
Theorem cidr_app ip cidrs1 cidrs2 :
  (forall ranger network, insertFails ranger network = false) ->
  calculateCIDRAffinityScore ip (cidrs1 ++ cidrs2) = maxScore <->
  calculateCIDRAffinityScore ip cidrs1 = maxScore \/
  calculateCIDRAffinityScore ip cidrs2 = maxScore.
Proof.
  intros Hok. rewrite !cidr_max_iff by assumption. split.
  - intros (addr & cidr & network & Hip & Hin & Hp & Hc).
    apply in_app_or in Hin.
    destruct Hin as [Hin|Hin]; [left | right]; exists addr, cidr, network; auto.
  - intros [(addr & cidr & network & Hip & Hin & Hp & Hc)
           |(addr & cidr & network & Hip & Hin & Hp & Hc)];
      exists addr, cidr, network; repeat split; auto; apply in_or_app; auto.
Qed.

(** When the index refuses no network, the order of the entries of the
    CIDR set and their repetition do not change the score. *)
Theorem cidr_same_entries ip cidrs cidrs' :
  (forall ranger network, insertFails ranger network = false) ->
  (forall cidr, In cidr cidrs <-> In cidr cidrs') ->
  calculateCIDRAffinityScore ip cidrs = calculateCIDRAffinityScore ip cidrs'.
Proof.
  intros Hok Hsame.
  assert (Hiff : calculateCIDRAffinityScore ip cidrs = maxScore <->
                 calculateCIDRAffinityScore ip cidrs' = maxScore).
  { rewrite !cidr_max_iff by assumption.
    split; intros (addr & cidr & network & Hip & Hin & Hp & Hc);
      exists addr, cidr, network; repeat split; auto; now apply Hsame. }
  assert (Hne : minScore <> maxScore) by discriminate.
  destruct (cidr_values ip cidrs) as [E|[E|[]]];
    destruct (cidr_values ip cidrs') as [E'|[E'|[]]]; try congruence.
  - symmetry in E'. apply Hiff in E'. congruence.
  - symmetry in E. apply Hiff in E. congruence.
Qed.

End CidrSet.

Lemma cidr_no_parseable_entry_witness :
  calculateCIDRAffinityScore "10.0.0.5" ["10.0.0.0/33"; "10.0.0/24"] = minScore.
Proof.
  apply (cidr_no_parseable_entry (net := NetV4)).
  intros cidr [<-|[<-|[]]]; reflexivity.
Defined.

Lemma cidr_app_witness :
  calculateCIDRAffinityScore "10.0.0.5" (["10.1.0.0/16"] ++ ["10.0.0.0/24"]) = maxScore.
Proof.
  apply (cidr_app (net := NetV4) "10.0.0.5" ["10.1.0.0/16"] ["10.0.0.0/24"]).
  - intros ranger network. reflexivity.
  - right. vm_compute. reflexivity.
Defined.

Lemma cidr_same_entries_witness :
  calculateCIDRAffinityScore "10.0.0.5" ["10.1.0.0/16"; "10.0.0.0/24"] =
  calculateCIDRAffinityScore "10.0.0.5" ["10.0.0.0/24"; "10.1.0.0/16"; "10.0.0.0/24"].
Proof.
  apply (cidr_same_entries (net := NetV4)).
  - intros ranger network. reflexivity.
  - intros cidr. simpl. tauto.
Defined.

(** ** IDC and location affinity, further *)

Lemma asciiEqualFold_refl s : asciiEqualFold s s = true.
Proof.
  induction s as [|c s IH]; simpl; [reflexivity|].
  now rewrite Ascii.eqb_refl, IH.
Qed.

Lemma asciiEqualFold_sym s t : asciiEqualFold s t = asciiEqualFold t s.
Proof.
  revert t. induction s as [|c s IH]; intros [|d t]; simpl; try reflexivity.
  now rewrite Ascii.eqb_sym, IH.
Qed.

Section AffinityFurther.
Context {str : Strings}.

Lemma split_at_no_sep sep s :
  ~ In sep (list_ascii_of_string s) -> split_at sep s = (s, None).
Proof.
  induction s as [|c s IH]; simpl; intros Hn; [reflexivity|].
  destruct (Ascii.eqb_spec c sep) as [->|Hc]; [exfalso; apply Hn; now left|].
  rewrite IH by (intros Hin; apply Hn; now right). reflexivity.
Qed.

(** A string without the separator is its own single segment. *)
Lemma Split_no_sep s sep :
  ~ In sep (list_ascii_of_string s) -> Split s sep = [s].
Proof.
  intros Hn. unfold Split.
  destruct (String.length s); simpl; [reflexivity|].
  now rewrite split_at_no_sep.
Qed.

Lemma Split_cons s sep : exists segment segments, Split s sep = segment :: segments.
Proof.
  destruct (Split s sep) as [|segment segments] eqn:E.
  - unfold Split in E. now apply split_fuel_nonempty in E.
  - eauto.
Qed.

(** When the idc of the cluster holds no bar, the IDC sub-score is 1.0
    exactly when both idcs are not empty and equal ignoring case, and 0.0
    otherwise. *)
Theorem idc_single_identifier dst src :
  ~ In "|"%char (list_ascii_of_string src) ->
  calculateIDCAffinityScore dst src =
  if decide (dst <> "" /\ src <> "" /\ EqualFold dst src = true)
  then maxScore else minScore.
Proof.
  intros Hn. unfold calculateIDCAffinityScore.
  change AffinitySeparator with "|"%char.
  rewrite Split_no_sep by assumption. simpl. rewrite orb_false_r.
  destruct (String.eqb_spec dst ""), (String.eqb_spec src ""); simpl;
    destruct (EqualFold dst src); destruct (decide _) as [Hyes|Hno];
    try reflexivity; exfalso; intuition congruence.
Qed.

(** When [EqualFold] holds between every string and itself, equal idcs
    that are not empty score 1.0, and so do equal locations. *)
Theorem affinity_of_equal_strings s :
  (forall t, EqualFold t t = true) ->
  s <> "" ->
  calculateIDCAffinityScore s s = maxScore /\
  calculateMultiElementAffinityScore s s = maxScore.
Proof.
  intros Hrefl Hs.
  unfold calculateIDCAffinityScore, calculateMultiElementAffinityScore.
  destruct (String.eqb_spec s ""); [contradiction|]. simpl.
  now rewrite Hrefl.
Qed.

Lemma location_as_prefix_run dst src :
  calculateMultiElementAffinityScore dst src = locationAffinitySpec dst src.
Proof.
  unfold calculateMultiElementAffinityScore, locationAffinitySpec.
  rewrite empty_check. destruct (decide _) as [He|He]; [reflexivity|].
  destruct (EqualFold dst src); [reflexivity|].
  change AffinitySeparator with "|"%char.
  set (d := Split dst "|"). set (s := Split src "|").
  set (n := if Min (len d) (len s) >? maxElementLen then maxElementLen else Min (len d) (len s)).
  assert (Hn : n = Z.min (Z.min (len d) (len s)) 5).
  { subst n. unfold Min, maxElementLen.
    destruct (Z.ltb_spec (len d) (len s));
      match goal with |- context [?a >? 5] => destruct (Z.gtb_spec a 5) end; lia. }
  cbv zeta. fold n.
  rewrite countMatches_run; [| lia | lia | lia | lia].
  rewrite Z.sub_0_r, Hn. reflexivity.
Qed.

Lemma prefixRun_swap (xs ys : list string) :
  (forall a b, EqualFold a b = EqualFold b a) ->
  forall n, prefixRun (firstn n (combine xs ys)) = prefixRun (firstn n (combine ys xs)).
Proof.
  intros Hsym. revert ys.
  induction xs as [|x xs IH]; intros [|y ys] [|n]; simpl; try reflexivity.
  rewrite (Hsym x y), IH. reflexivity.
Qed.

(** When [EqualFold] is symmetric, so is the location sub-score. *)
Theorem location_symmetric dst src :
  (forall a b, EqualFold a b = EqualFold b a) ->
  calculateMultiElementAffinityScore dst src =
  calculateMultiElementAffinityScore src dst.
Proof.
  intros Hsym. rewrite !location_as_prefix_run. unfold locationAffinitySpec.
  rewrite (Hsym src dst).
  destruct (decide (dst = "" \/ src = "")), (decide (src = "" \/ dst = ""));
    try tauto; try reflexivity.
  destruct (EqualFold dst src); [reflexivity|].
  cbv zeta. rewrite (Z.min_comm (len (Split src "|"))).
  now rewrite prefixRun_swap.
Qed.

Lemma prefixRun_bounds pairs : 0 <= prefixRun pairs <= len pairs.
Proof.
  unfold len. induction pairs as [|[a b] pairs IH]; simpl; [lia|].
  destruct (EqualFold a b); lia.
Qed.

(** For two locations that are not empty and not equal as a whole, the
    sub-score is 0.0 exactly when their first segments differ: a mismatch
    at the first level leaves nothing to the levels below. *)
Theorem location_first_mismatch dst src :
  dst <> "" -> src <> "" -> EqualFold dst src = false ->
  calculateMultiElementAffinityScore dst src = minScore <->
  EqualFold (hd "" (Split dst "|")) (hd "" (Split src "|")) = false.
Proof.
  intros Hd Hs Hne. rewrite location_as_prefix_run. unfold locationAffinitySpec.
  destruct (decide _) as [He|_]; [tauto|]. rewrite Hne. cbv zeta.
  destruct (Split_cons dst "|") as (d0 & ds & ->).
  destruct (Split_cons src "|") as (s0 & ss & ->).
  set (n := Z.min _ 5).
  assert (Hn : 1 <= n <= 5) by (subst n; unfold len; simpl; lia).
  replace (Z.to_nat n) with (S (Z.to_nat (n - 1))) by lia.
  simpl.
  destruct (EqualFold d0 s0).
  - pose proof (prefixRun_bounds (firstn (Z.to_nat (n - 1)) (combine ds ss))) as Hb.
    unfold len in Hb. rewrite length_firstn in Hb.
    set (r := prefixRun _) in *.
    assert (Hr : r = 0 \/ r = 1 \/ r = 2 \/ r = 3 \/ r = 4) by lia.
    split; [|discriminate].
    destruct Hr as [->|[->|[->|[->| ->]]]]; vm_compute; discriminate.
  - split; reflexivity.
Qed.

Lemma firstn_combine_five (xs ys : list string) :
  firstn (Z.to_nat (Z.min (Z.min (len xs) (len ys)) 5)) (combine xs ys) =
  combine (firstn 5 xs) (firstn 5 ys).
Proof.
  rewrite <- combine_firstn. unfold len.
  destruct (Z.le_gt_cases 5 (Z.min (Z.of_nat (length xs)) (Z.of_nat (length ys)))).
  - rewrite Z.min_r by lia. reflexivity.
  - rewrite Z.min_l by lia.
    rewrite !firstn_all2; [reflexivity | |]; rewrite length_combine; lia.
Qed.

(** For locations that are not empty and not equal as a whole, the
    sub-score reads the first five segments of each and nothing after
    them. *)
Theorem location_first_five dst src dst' src' :
  dst <> "" -> src <> "" -> dst' <> "" -> src' <> "" ->
  EqualFold dst src = false -> EqualFold dst' src' = false ->
  firstn 5 (Split dst "|") = firstn 5 (Split dst' "|") ->
  firstn 5 (Split src "|") = firstn 5 (Split src' "|") ->
  calculateMultiElementAffinityScore dst src =
  calculateMultiElementAffinityScore dst' src'.
Proof.
  intros Hd Hs Hd' Hs' Hne Hne' Hfd Hfs.
  rewrite !location_as_prefix_run. unfold locationAffinitySpec.
  destruct (decide (dst = "" \/ src = "")); [tauto|].
  destruct (decide (dst' = "" \/ src' = "")); [tauto|].
  rewrite Hne, Hne'. cbv zeta.
  now rewrite !firstn_combine_five, Hfd, Hfs.
Qed.

End AffinityFurther.

Lemma idc_single_identifier_witness :
  calculateIDCAffinityScore "IDC-1" "idc-1" = maxScore.
Proof.
  apply (idc_single_identifier (str := AsciiStrings) "IDC-1" "idc-1").
  vm_compute. intuition discriminate.
Defined.

Lemma affinity_of_equal_strings_witness :
  calculateIDCAffinityScore "x|y" "x|y" = maxScore /\
  calculateMultiElementAffinityScore "x|y" "x|y" = maxScore.
Proof.
  apply (affinity_of_equal_strings (str := AsciiStrings)).
  - exact asciiEqualFold_refl.
  - discriminate.
Defined.

Lemma location_symmetric_witness :
  calculateMultiElementAffinityScore "r1|z1|rack1" "r1|z2" =
  calculateMultiElementAffinityScore "r1|z2" "r1|z1|rack1".
Proof.
  apply (location_symmetric (str := AsciiStrings)). exact asciiEqualFold_sym.
Defined.

Lemma location_first_mismatch_witness :
  calculateMultiElementAffinityScore "r1|z1|rack1" "r2|z1|rack1" = minScore.
Proof.
  apply (location_first_mismatch (str := AsciiStrings) "r1|z1|rack1" "r2|z1|rack1");
    try discriminate; reflexivity.
Defined.

Lemma location_first_five_witness :
  calculateMultiElementAffinityScore "a|b|c|d|e|f" "a|b|c|d|e|g" =
  calculateMultiElementAffinityScore "a|b|c|d|e" "a|b|c|d|e|h|i".
Proof.
  apply (location_first_five (str := AsciiStrings)); try discriminate; reflexivity.
Defined.
